(** * leansdr/generic.h: the simple pipeline blocks

    A shallow embedding of the blocks of [src/leansdr/generic.h]
    (file_reader, file_writer, file_printer, file_carrayprinter,
    itemcounter, decimator, rate_estimator, serializer, buffer_reader,
    buffer_writer) and the properties of their [run()] step.

    Conventions.
    - C++ integers are [Z]; a conversion to a fixed-width type is written
      out ([to_int], [to_uint], [to_ulong]).
    - A stream's readable region is a [list]; a pointer into it is an index.
    - [fatal(...)]/[fail(...)] end the process: outcome [Fatal msg].
      Undefined behaviour of the C++ program is outcome [Undefined why].
      A loop that has not finished within the given fuel is [OutOfFuel]. *)

From Stdlib Require Import ZArith String Ascii Bool Lia List DecimalString.
From Stdlib Require Import Strings.Byte.
Import ListNotations.
Local Open Scope Z_scope.

(** ** Outcomes of a block invocation *)

(** Modelled from the spec: [fatal] and [fail] of leansdr/framework.h, which
    is not among the sources; the spec (section 7) has them report the
    condition and halt the whole pipeline. They are the outcome [Fatal] with
    the message passed. *)
Inductive outcome (A : Type) : Type :=
| Done (a : A)
| Fatal (msg : string)
| Undefined (why : string)
| OutOfFuel.

Arguments Done {A} a.
Arguments Fatal {A} msg.
Arguments Undefined {A} why.
Arguments OutOfFuel {A}.

Definition bind {A B : Type} (m : outcome A) (k : A -> outcome B) : outcome B :=
  match m with
  | Done a => k a
  | Fatal msg => Fatal msg
  | Undefined why => Undefined why
  | OutOfFuel => OutOfFuel
  end.

Notation "x <- m ;; k" := (bind m (fun x => k))
  (at level 61, m at next level, right associativity).

(** ** Fixed-width integers *)

(** [int] is 32 bits, [unsigned int] 32 bits, [unsigned long], [size_t]
    64 bits (LP64). *)
Definition to_uint (z : Z) : Z := z mod 2 ^ 32.
Definition to_ulong (z : Z) : Z := z mod 2 ^ 64.
Definition to_int (z : Z) : Z := (z + 2 ^ 31) mod 2 ^ 32 - 2 ^ 31.

(** Modelled from the spec: [min] and [max] of leansdr/math.h, which is not
    among the sources; the spec reads [min] as "the lesser of" its two
    arguments (4.2, 4.4, 4.9) and [max] dually. *)
Definition min (a b : Z) : Z := if b <? a then b else a.
Definition max (a b : Z) : Z := if a <? b then b else a.

(** ** Stream endpoints *)

(** Modelled from the spec: the bounded stream [pipebuf<T>] with its
    [pipereader]/[pipewriter] endpoints (leansdr/framework.h is not among the
    sources). Section 6 of the spec gives the contract: [readable()] is the
    available input element count, [rd()] the readable region, [read(n)]
    commits consumption of [n] elements, [writable()] is the output capacity
    in elements, [wr()] the writable region and [written(n)] commits the
    first [n] elements stored there.  The readable elements are [items], in
    FIFO order; [room] is the writable capacity. *)
Record pipebuf (T : Type) : Type := mkpipe {
  items : list T;
  room : nat
}.

Arguments mkpipe {T} items room.
Arguments items {T} p.
Arguments room {T} p.

Section Endpoints.
Context {T : Type}.

Definition readable (p : pipebuf T) : Z := Z.of_nat (length (items p)).
Definition rd (p : pipebuf T) : list T := items p.
Definition read (n : Z) (p : pipebuf T) : pipebuf T :=
  mkpipe (skipn (Z.to_nat n) (items p)) (room p).

Definition writable (p : pipebuf T) : Z := Z.of_nat (room p).

(** [written(n)] after the block has stored [staged] at [wr()]: the first
    [n] stored elements become readable downstream. *)
Definition written (staged : list T) (n : Z) (p : pipebuf T) : pipebuf T :=
  mkpipe (items p ++ firstn (Z.to_nat n) staged) (room p - Z.to_nat n).

(** [write(x)]: store one element and commit it. *)
Definition write (x : T) (p : pipebuf T) : pipebuf T := written [x] 1 p.

(** [*p] for a pointer [p] at index [i] of a region. *)
Definition deref (region : list T) (i : Z) : outcome T :=
  if i <? 0 then Undefined "read before the region"
  else match nth_error region (Z.to_nat i) with
       | Some x => Done x
       | None => Undefined "read past the region"
       end.
End Endpoints.

(** Raw bytes of a region of elements, and the elements of a byte string:
    an element of width [w] is its [w] bytes. *)
Definition element : Type := list byte.

Fixpoint chunks_aux (fuel : nat) (w : nat) (bs : list byte) : list element :=
  match fuel with
  | O => []
  | S fuel' =>
      match bs with
      | [] => []
      | _ => firstn w bs :: chunks_aux fuel' w (skipn w bs)
      end
  end.

Definition chunks (w : nat) (bs : list byte) : list element :=
  chunks_aux (length bs) w bs.

(** ** Descriptors *)

(** A readable descriptor is what the operating system will deliver on it:
    a sequence of arrivals, each a run of bytes (a read returns at most one
    arrival, and at most the requested count of it; an empty arrival reads as
    end of data) or an error. Past the last arrival every read returns 0.
    [lseek(fd, 0, SEEK_SET)] on a seekable descriptor restarts at [origin].
    [calls] records the system calls made, oldest first. *)
Inductive arrival : Type :=
| Bytes (bs : list byte)
| IoError.

Inductive syscall : Type :=
| SysRead (count result : Z)
| SysLseek (result : Z).

Record source : Type := mksource {
  pending : list arrival;
  origin : list arrival;
  seekable : bool;
  calls : list syscall
}.

(** [read(fd, buf, count)]: the return value, the bytes stored at [buf], and
    the descriptor afterwards. *)
Definition sys_read (fd : source) (count : Z) : Z * list byte * source :=
  let log r := calls fd ++ [SysRead count r] in
  match pending fd with
  | [] => (0, [], mksource [] (origin fd) (seekable fd) (log 0))
  | IoError :: rest =>
      (-1, [], mksource rest (origin fd) (seekable fd) (log (-1)))
  | Bytes bs :: rest =>
      let len := Z.of_nat (length bs) in
      if len <=? count
      then (len, bs, mksource rest (origin fd) (seekable fd) (log len))
      else (count, firstn (Z.to_nat count) bs,
            mksource (Bytes (skipn (Z.to_nat count) bs) :: rest)
                     (origin fd) (seekable fd) (log count))
  end.

Definition sys_lseek (fd : source) : Z * source :=
  if seekable fd
  then (0, mksource (origin fd) (origin fd) true (calls fd ++ [SysLseek 0]))
  else (-1, mksource (pending fd) (origin fd) false (calls fd ++ [SysLseek (-1)])).

(** A writable descriptor: what each successive [write] will accept (a byte
    count, or an error); past the last slot every write is accepted whole.
    [writes] records the calls: the buffer handed over, the requested count
    and the return value. *)
Inductive slot : Type :=
| Accept (n : nat)
| WriteError.

Record write_call : Type := mkwrite {
  w_buf : list byte;
  w_count : Z;
  w_result : Z
}.

Record sink : Type := mksink {
  slots : list slot;
  writes : list write_call
}.

Definition sys_write (fd : sink) (buf : list byte) (count : Z) : Z * sink :=
  let log r := writes fd ++ [mkwrite buf count r] in
  match slots fd with
  | [] => (count, mksink [] (log count))
  | Accept n :: rest =>
      let r := Z.min (Z.of_nat n) count in (r, mksink rest (log r))
  | WriteError :: rest => (-1, mksink rest (log (-1)))
  end.

(** ** file_reader *)

Module file_reader.

Record t : Type := mk {
  loop : bool;
  fdin : source;
  out : pipebuf element
}.

Definition construct (_fdin : source) (_out : pipebuf element) : t :=
  mk false _fdin _out.

(** The [while ( remain )] loop. [nr] bytes, [data], are already stored at
    [out.wr()]; each read stores at offset [nr]. *)
Fixpoint complete (fuel : nat) (fd : source) (nr remain : Z)
         (data : list byte) : outcome (Z * list byte * source) :=
  if remain =? 0 then Done (nr, data, fd)
  else match fuel with
       | O => OutOfFuel
       | S fuel' =>
           let '(nr2, bs, fd') := sys_read fd remain in
           if nr2 <=? 0 then Fatal "partial read"
           else complete fuel' fd' (nr + nr2) (to_ulong (remain - nr2))
                         (data ++ bs)
       end.

(** From the label [again] to the end of [run()]. [sizeof_T] is the
    element width, [size] the byte count requested. The debug traces on
    stderr are left out. *)
Fixpoint again (fuel : nat) (sizeof_T size : Z) (s : t) : outcome t :=
  match fuel with
  | O => OutOfFuel
  | S fuel' =>
      let '(nr, bs, fd1) := sys_read (fdin s) size in
      if nr <? 0 then Fatal "read"
      else if nr =? 0 then
        if negb (loop s) then Done (mk (loop s) fd1 (out s))
        else
          let '(res, fd2) := sys_lseek fd1 in
          if res =? -1 then Fatal "lseek"
          else again fuel' sizeof_T size (mk (loop s) fd2 (out s))
      else
        let partial := to_ulong nr mod sizeof_T in
        let remain := if partial =? 0 then 0 else sizeof_T - partial in
        r <- complete fuel' fd1 nr remain bs ;;
        let '(nr', data, fd') := r in
        Done (mk (loop s) fd'
                 (written (chunks (Z.to_nat sizeof_T) data)
                          (to_ulong nr' / sizeof_T) (out s)))
  end.

Definition run (fuel : nat) (sizeof_T : Z) (s : t) : outcome t :=
  let size := to_ulong (writable (out s) * sizeof_T) in
  if size =? 0 then Done s
  else again fuel sizeof_T size s.

End file_reader.

(** ** file_writer *)

Module file_writer.

Record t : Type := mk {
  in_ : pipebuf element;
  fdout : sink
}.

Definition run (sizeof_T : Z) (s : t) : outcome t :=
  let size := to_int (to_ulong (readable (in_ s) * sizeof_T)) in
  if size =? 0 then Done s
  else
    let '(r, fd') := sys_write (fdout s) (concat (rd (in_ s))) (to_ulong size) in
    let nw := to_int r in
    if nw =? 0 then Fatal "pipe"
    else if nw <? 0 then Fatal "write"
    else if negb (to_ulong nw mod sizeof_T =? 0) then Fatal "partial write"
    else Done (mk (read (to_ulong nw / sizeof_T) (in_ s)) fd').

End file_writer.

(** ** Formatting *)

(** What the printers need of their element type [T]: the conversion from
    [int] (for [scale(1)]), [operator*], and what a printf-family call makes
    of a format template and arguments of type [T] ([None]: the call
    fails). *)
Class printable (T : Type) : Type := {
  of_int : Z -> T;
  times : T -> T -> T;
  vprintf : string -> list T -> option (list byte)
}.

(** The C library's [snprintf(buf, size, format, v)]: the return value and
    the bytes left in [buf]. Since C99 (glibc 2.1) the return value is the
    length the whole output needs, also when it did not fit; glibc up to
    2.0.6 returned -1 when the output was truncated. *)
Inductive libc : Type := c99 | glibc20.

Definition snprintf {T : Type} `{printable T} (lib : libc) (size : Z)
           (format : string) (v : T) : Z * list byte :=
  match vprintf format [v] with
  | None => (-1, [])
  | Some text =>
      let len := Z.of_nat (length text) in
      if len <? size then (len, text ++ [x00])
      else
        let kept := firstn (Z.to_nat (size - 1)) text ++ [x00] in
        match lib with
        | c99 => (len, kept)
        | glibc20 => (-1, kept)
        end
  end.

(** ** file_printer *)

Module file_printer.
Section Block.
Context {T : Type} `{printable T}.
Variable lib : libc.

Record t : Type := mk {
  scale : T;
  decimation : Z;
  in_ : pipebuf T;
  format : string;
  fdout : sink;
  phase : Z
}.

Definition construct (_format : string) (_in : pipebuf T) (_fdout : sink)
           (_decimation : Z) : t :=
  mk (of_int 1) _decimation _in _format _fdout 0.

(** The body of the [for] loop on the element [x = *pin]. *)
Definition step (x : T) (s : t) : outcome t :=
  let phase1 := to_int (phase s + 1) in
  if decimation s <=? phase1 then
    let phase2 := to_int (phase1 - decimation s) in
    let '(len, buf) := snprintf lib 256 (format s) (times x (scale s)) in
    if len <? 0 then Fatal "obsolete glibc"
    else
      let '(r, fd') := sys_write (fdout s) buf (to_ulong len) in
      let nw := to_int r in
      if negb (nw =? len) then Fatal "partial write"
      else Done (mk (scale s) (decimation s) (in_ s) (format s) fd' phase2)
  else Done (mk (scale s) (decimation s) (in_ s) (format s) (fdout s) phase1).

(** [for ( ; pin<pend; ++pin )], pointers as indices into [in.rd()]. *)
Fixpoint for_loop (fuel : nat) (pin pend : Z) (s : t) : outcome t :=
  if pin <? pend then
    match fuel with
    | O => OutOfFuel
    | S fuel' =>
        x <- deref (rd (in_ s)) pin ;;
        s' <- step x s ;;
        for_loop fuel' (pin + 1) pend s'
    end
  else Done s.

Definition run (s : t) : outcome t :=
  let n := to_int (readable (in_ s)) in
  s' <- for_loop (Z.to_nat n) 0 n s ;;
  Done (mk (scale s') (decimation s') (read (to_ulong n) (in_ s'))
           (format s') (fdout s') (phase s')).

End Block.
End file_printer.

(** ** file_carrayprinter *)

(** Modelled from the spec: [complex<T>] of leansdr/math.h, which is not
    among the sources; the spec (4.6) has it as a pair of numeric components,
    real and imaginary. *)
Record complex (T : Type) : Type := mkcomplex { re : T; im : T }.
Arguments mkcomplex {T} re im.
Arguments re {T} c.
Arguments im {T} c.

(** A stdio stream: what [fprintf] has buffered and what [fflush] has
    handed to the descriptor. Output errors are not looked at by the block. *)
Record FILE : Type := mkFILE {
  buffered : list byte;
  flushed : list byte
}.

Definition fputs (text : list byte) (f : FILE) : FILE :=
  mkFILE (buffered f ++ text) (flushed f).

Definition fprintf {T : Type} `{printable T} (f : FILE) (format : string)
           (args : list T) : FILE :=
  match vprintf format args with
  | Some text => fputs text f
  | None => f
  end.

Definition fflush (f : FILE) : FILE :=
  mkFILE [] (flushed f ++ buffered f).

Module file_carrayprinter.
Section Block.
Context {T : Type} `{printable T}.
(** [fprintf(fout, head, n)] takes an [int]. *)
Context `{printable_int : printable Z}.

Record t : Type := mk {
  scale : T;
  in_ : pipebuf (complex T);
  head : string;
  format : string;
  tail : list byte;
  fout : option FILE
}.

(** [fdopen(_fdout,"w")] is [fdopen_result]: a stream, or [NULL]. *)
Definition construct (_head _format : string) (_tail : list byte)
           (_in : pipebuf (complex T)) (fdopen_result : option FILE) : t :=
  mk (of_int 1) _in _head _format _tail fdopen_result.

Fixpoint for_loop (fuel : nat) (region : list (complex T)) (scale : T)
         (format : string) (pin pend : Z) (f : FILE) : outcome FILE :=
  if pin <? pend then
    match fuel with
    | O => OutOfFuel
    | S fuel' =>
        x <- deref region pin ;;
        for_loop fuel' region scale format (pin + 1) pend
                 (fprintf f format [times (re x) scale; times (im x) scale])
    end
  else Done f.

Definition run (s : t) : outcome t :=
  let n := to_int (readable (in_ s)) in
  fout' <-
    match fout s with
    | Some f =>
        if negb (n =? 0) then
          let f1 := fprintf f (head s) [n] in
          f2 <- for_loop (Z.to_nat n) (rd (in_ s)) (scale s) (format s) 0 n f1 ;;
          Done (Some (fflush (fputs (tail s) f2)))
        else Done (Some f)
    | None => Done None
    end ;;
  Done (mk (scale s) (read (to_ulong n) (in_ s)) (head s) (format s)
           (tail s) fout').

End Block.
End file_carrayprinter.

(** ** itemcounter *)

Module itemcounter.
Section Block.
Context {Tin Tout : Type}.
(** The conversion of the [unsigned long] count to [Tout]. *)
Variable of_count : Z -> Tout.

Record t : Type := mk {
  in_ : pipebuf Tin;
  out : pipebuf Tout
}.

Definition run (s : t) : outcome t :=
  if writable (out s) <? 1 then Done s
  else
    let count := readable (in_ s) in
    if count =? 0 then Done s
    else
      let out' := write (of_count count) (out s) in
      Done (mk (read count (in_ s)) out').

End Block.
End itemcounter.

(** ** decimator *)

Module decimator.
Section Block.
Context {T : Type}.

Record t : Type := mk {
  d : Z;
  in_ : pipebuf T;
  out : pipebuf T
}.

(** [d(_d)] converts the [int] argument to [unsigned int]. Nothing is
    checked. *)
Definition construct (_d : Z) (_in _out : pipebuf T) : t :=
  mk (to_uint _d) _in _out.

(** [for ( ; pin<pend; pin+=d, ++pout ) *pout = *pin;] with [pin] an index
    into [in.rd()] and [staged] what has been stored from [out.wr()] on. *)
Fixpoint for_loop (fuel : nat) (region : list T) (d : Z) (pin pend : Z)
         (staged : list T) : outcome (list T) :=
  if pin <? pend then
    match fuel with
    | O => OutOfFuel
    | S fuel' =>
        x <- deref region pin ;;
        for_loop fuel' region d (pin + d) pend (staged ++ [x])
    end
  else Done staged.

Definition run (s : t) : outcome t :=
  if d s =? 0 then Undefined "division by zero"
  else
    let count := min (readable (in_ s) / d s) (writable (out s)) in
    let pend := to_ulong (count * d s) in
    staged <- for_loop (Z.to_nat count) (rd (in_ s)) (d s) 0 pend [] ;;
    Done (mk (d s)
             (read (to_ulong (count * d s)) (in_ s))
             (written staged count (out s))).

End Block.
End decimator.

(** ** rate_estimator *)

(** What [rate_estimator<T>] needs of its accumulator type [T]: the
    conversion of the [int] literal 0 ([acc_num = acc_den = 0]), [acc += x]
    for an [int] x, the comparison [acc >= sample_size] with an [int], and
    [(float)acc_num / acc_den], a [float]. [F] stands for [float]. *)
Class accumulator (T F : Type) : Type := {
  acc_zero : T;
  acc_add : T -> Z -> T;
  acc_ge : T -> Z -> bool;
  acc_ratio : T -> T -> F
}.

Module rate_estimator.
Section Block.
Context {T F : Type} `{accumulator T F}.

Record t : Type := mk {
  sample_size : Z;
  num : pipebuf Z;
  den : pipebuf Z;
  rate : pipebuf F;
  acc_num : T;
  acc_den : T
}.

Definition construct (_num _den : pipebuf Z) (_rate : pipebuf F) : t :=
  mk 10000 _num _den _rate acc_zero acc_zero.

(** [for ( int n=count; n--; ++pnum,++pden )]: the test reads [n] and
    decrements it; [pnum], [pden] are indices into [num.rd()], [den.rd()]. *)
Fixpoint for_loop (fuel : nat) (rnum rden : list Z) (n pnum pden : Z)
         (an ad : T) : outcome (T * T) :=
  if n =? 0 then Done (an, ad)
  else match fuel with
       | O => OutOfFuel
       | S fuel' =>
           x <- deref rnum pnum ;;
           y <- deref rden pden ;;
           for_loop fuel' rnum rden (to_int (n - 1)) (pnum + 1) (pden + 1)
                    (acc_add an x) (acc_add ad y)
       end.

Definition run (s : t) : outcome t :=
  if writable (rate s) <? 1 then Done s
  else
    let count := to_int (min (readable (num s)) (readable (den s))) in
    acc <- for_loop (Z.to_nat (to_uint count)) (rd (num s)) (rd (den s))
                    count 0 0 (acc_num s) (acc_den s) ;;
    let '(an, ad) := acc in
    let num' := read (to_ulong count) (num s) in
    let den' := read (to_ulong count) (den s) in
    if acc_ge ad (sample_size s)
    then Done (mk (sample_size s) num' den'
                  (write (acc_ratio an ad) (rate s)) acc_zero acc_zero)
    else Done (mk (sample_size s) num' den' (rate s) an ad).

End Block.
End rate_estimator.

(** [rate_estimator<int>]: 32-bit sums. The quotient [(float)a / b] of two
    [int] is kept as the pair of its operands. *)
Inductive float_quotient : Type := FDiv (numerator denominator : Z).

#[export] Instance accumulator_int : accumulator Z float_quotient := {
  acc_zero := 0;
  acc_add a x := to_int (a + x);
  acc_ge a n := n <=? a;
  acc_ratio a b := FDiv a b
}.

(** ** SERIALIZER *)

Module serializer.

Record t : Type := mk {
  nin : Z;
  nout : Z;
  in_ : pipebuf element;
  out : pipebuf element
}.

(** The member initialisers [nin(max((size_t)1,sizeof(Tin)/sizeof(Tout)))]
    and [nout(max((size_t)1,sizeof(Tout)/sizeof(Tin)))]; both members are
    [int]. *)
Definition nin_init (sizeof_Tin sizeof_Tout : Z) : Z :=
  to_int (max 1 (sizeof_Tin / sizeof_Tout)).
Definition nout_init (sizeof_Tin sizeof_Tout : Z) : Z :=
  to_int (max 1 (sizeof_Tout / sizeof_Tin)).

(** The constructor. The comparison is made in [size_t]. *)
Definition construct (sizeof_Tin sizeof_Tout : Z)
           (_in _out : pipebuf element) : outcome t :=
  let nin := nin_init sizeof_Tin sizeof_Tout in
  let nout := nout_init sizeof_Tin sizeof_Tout in
  if negb (to_ulong (to_ulong nin * sizeof_Tin)
           =? to_ulong (to_ulong nout * sizeof_Tout))
  then Fatal "serializer: incompatible sizes"
  else Done (mk nin nout _in _out).

(** One pass of the [while] body: [memcpy] of [nout*sizeof(Tout)] bytes from
    [in.rd()] to [out.wr()], then [in.read(nin)], [out.written(nout)]. *)
Definition copy_group (sizeof_Tout : Z) (s : t) : outcome t :=
  let nbytes := to_ulong (to_ulong (nout s) * sizeof_Tout) in
  let src := concat (rd (in_ s)) in
  if Z.of_nat (length src) <? nbytes
  then Undefined "memcpy reads past the readable region"
  else
    let staged := chunks (Z.to_nat sizeof_Tout) (firstn (Z.to_nat nbytes) src) in
    Done (mk (nin s) (nout s)
             (read (to_ulong (nin s)) (in_ s))
             (written staged (to_ulong (nout s)) (out s))).

Fixpoint run_loop (fuel : nat) (sizeof_Tout : Z) (s : t) : outcome t :=
  if (to_ulong (nin s) <=? readable (in_ s))
     && (to_ulong (nout s) <=? writable (out s))
  then match fuel with
       | O => OutOfFuel
       | S fuel' =>
           s' <- copy_group sizeof_Tout s ;;
           run_loop fuel' sizeof_Tout s'
       end
  else Done s.

Definition run (fuel : nat) (sizeof_Tout : Z) (s : t) : outcome t :=
  run_loop fuel sizeof_Tout s.

End serializer.

(** ** buffer_reader *)

Module buffer_reader.
Section Block.
Context {T : Type}.

(** [data] is the caller's region, [count] the element count the caller
    declared for it. *)
Record t : Type := mk {
  data : list T;
  count : Z;
  out : pipebuf T;
  pos : Z
}.

Definition construct (_data : list T) (_count : Z) (_out : pipebuf T) : t :=
  mk _data _count _out 0.

Definition run (s : t) : outcome t :=
  let n := to_int (min (writable (out s)) (to_ulong (to_int (count s - pos s)))) in
  if n <? 0 then Undefined "memcpy with a negative count"
  else if Z.of_nat (length (data s)) <? pos s + n
  then Undefined "memcpy reads past the region"
  else
    let staged := firstn (Z.to_nat n) (skipn (Z.to_nat (pos s)) (data s)) in
    Done (mk (data s) (count s) (written staged n (out s)) (to_int (pos s + n))).

End Block.
End buffer_reader.

(** ** buffer_writer *)

Module buffer_writer.
Section Block.
Context {T : Type}.

Record t : Type := mk {
  in_ : pipebuf T;
  data : list T;
  count : Z;
  pos : Z
}.

Definition construct (_in : pipebuf T) (_data : list T) (_count : Z) : t :=
  mk _in _data _count 0.

Definition run (s : t) : outcome t :=
  let n := to_int (min (readable (in_ s)) (to_ulong (to_int (count s - pos s)))) in
  if n <? 0 then Undefined "memcpy with a negative count"
  else if Z.of_nat (length (data s)) <? pos s + n
  then Undefined "memcpy writes past the region"
  else
    let data' := firstn (Z.to_nat (pos s)) (data s)
                 ++ firstn (Z.to_nat n) (rd (in_ s))
                 ++ skipn (Z.to_nat (pos s + n)) (data s) in
    Done (mk (read n (in_ s)) data' (count s) (to_int (pos s + n))).

End Block.
End buffer_writer.

(** ** [int] elements *)

(** A fragment of the C library's printf family on [int] arguments.
    Ordinary characters are copied. A conversion is [%], then flags among
    [-], [+], space and [0], then an optional field width, then one of
    [d], [i] (signed decimal), [u] (unsigned decimal), [x], [X]
    (hexadecimal), [o] (octal), each printing the next argument, or [%],
    which prints a percent sign. A missing argument makes the call fail.
    The [#] flag, precisions, length modifiers and all other conversions
    are outside the fragment: on such a template the function answers
    [None], which is not what the C library does, and no statement below
    uses one. *)
Definition is_digit (c : ascii) : bool :=
  ((48 <=? nat_of_ascii c) && (nat_of_ascii c <=? 57))%nat.

Fixpoint spaces (n : nat) : string :=
  match n with
  | O => EmptyString
  | S n' => String " " (spaces n')
  end.

Fixpoint zeros (n : nat) : string :=
  match n with
  | O => EmptyString
  | S n' => String "0" (zeros n')
  end.

(** A conversion being read: its flags, and its field width once the first
    digit of the width has been read. *)
Record conversion : Type := mkconv {
  left_justify : bool;
  show_sign : bool;
  blank_sign : bool;
  zero_pad : bool;
  field_width : option nat
}.

Definition plain : conversion := mkconv false false false false None.

Definition is_plain (sp : conversion) : bool :=
  negb (left_justify sp) && negb (show_sign sp) && negb (blank_sign sp)
  && negb (zero_pad sp)
  && match field_width sp with None => true | Some _ => false end.

Definition digit_char (upper : bool) (d : Z) : ascii :=
  ascii_of_nat
    (Z.to_nat (if d <? 10 then 48 + d
               else if upper then 55 + d else 87 + d)).

(** A non-negative number in a base, most significant digit first. *)
Fixpoint in_base (fuel : nat) (base : Z) (upper : bool) (v : Z) : string :=
  match fuel with
  | O => EmptyString
  | S fuel' =>
      let last := String (digit_char upper (v mod base)) EmptyString in
      if v <? base then last
      else append (in_base fuel' base upper (v / base)) last
  end.

(** Sign and digits in the field: to the left under [-], else after zeros
    under [0], else after spaces. *)
Definition justify (sp : conversion) (sign digits : string) : string :=
  let width := match field_width sp with Some w => w | None => O end in
  let pad := (width - String.length sign - String.length digits)%nat in
  if left_justify sp then append sign (append digits (spaces pad))
  else if zero_pad sp then append sign (append (zeros pad) digits)
  else append (spaces pad) (append sign digits).

(** The conversion character [c] on the arguments left: the text printed
    and the arguments left afterwards. *)
Definition convert (c : ascii) (sp : conversion) (args : list Z)
  : option (string * list Z) :=
  if (c =? "%")%char then
    if is_plain sp then Some (String c EmptyString, args) else None
  else
    match args with
    | [] => None
    | v :: args' =>
        if (c =? "d")%char || (c =? "i")%char then
          let sign :=
            if v <? 0 then String "-" EmptyString
            else if show_sign sp then String "+" EmptyString
            else if blank_sign sp then String " " EmptyString
            else EmptyString in
          Some (justify sp sign (NilZero.string_of_int (Z.to_int (Z.abs v))),
                args')
        else if (c =? "u")%char
        then Some (justify sp EmptyString (in_base 32 10 false (to_uint v)), args')
        else if (c =? "x")%char
        then Some (justify sp EmptyString (in_base 32 16 false (to_uint v)), args')
        else if (c =? "X")%char
        then Some (justify sp EmptyString (in_base 32 16 true (to_uint v)), args')
        else if (c =? "o")%char
        then Some (justify sp EmptyString (in_base 32 8 false (to_uint v)), args')
        else None
    end.

Fixpoint printf_int (fmt : string) (spec : option conversion) (args : list Z)
  : option string :=
  match fmt with
  | EmptyString =>
      match spec with
      | None => Some EmptyString
      | Some _ => None
      end
  | String c rest =>
      match spec with
      | None =>
          if (c =? "%")%char then printf_int rest (Some plain) args
          else option_map (String c) (printf_int rest None args)
      | Some sp =>
          let digit := (nat_of_ascii c - 48)%nat in
          let finish :=
            match convert c sp args with
            | Some (text, args') =>
                option_map (append text) (printf_int rest None args')
            | None => None
            end in
          match field_width sp with
          | None =>
              if (c =? "-")%char
              then printf_int rest
                     (Some (mkconv true (show_sign sp) (blank_sign sp)
                                   (zero_pad sp) None)) args
              else if (c =? "+")%char
              then printf_int rest
                     (Some (mkconv (left_justify sp) true (blank_sign sp)
                                   (zero_pad sp) None)) args
              else if (c =? " ")%char
              then printf_int rest
                     (Some (mkconv (left_justify sp) (show_sign sp) true
                                   (zero_pad sp) None)) args
              else if (c =? "0")%char
              then printf_int rest
                     (Some (mkconv (left_justify sp) (show_sign sp)
                                   (blank_sign sp) true None)) args
              else if is_digit c
              then printf_int rest
                     (Some (mkconv (left_justify sp) (show_sign sp)
                                   (blank_sign sp) (zero_pad sp) (Some digit)))
                     args
              else finish
          | Some w =>
              if is_digit c
              then printf_int rest
                     (Some (mkconv (left_justify sp) (show_sign sp)
                                   (blank_sign sp) (zero_pad sp)
                                   (Some (10 * w + digit)%nat)))
                     args
              else finish
          end
      end
  end.

#[export] Instance printable_int : printable Z := {
  of_int z := z;
  times a b := to_int (a * b);
  vprintf fmt args := option_map list_byte_of_string (printf_int fmt None args)
}.

Definition newline : string := String (ascii_of_nat 10) EmptyString.

(** ** Vocabulary of the statements *)

(** [nin] elements of [sizeof_Tin] bytes take as many bytes as [nout]
    elements of [sizeof_Tout] bytes. *)
Definition same_bytes (sizeof_Tin sizeof_Tout nin nout : Z) : Prop :=
  1 <= nin /\ 1 <= nout /\ nin * sizeof_Tin = nout * sizeof_Tout.

(** [(nin, nout)] is the smallest such pair. *)
Definition smallest_group (sizeof_Tin sizeof_Tout nin nout : Z) : Prop :=
  same_bytes sizeof_Tin sizeof_Tout nin nout
  /\ forall a b, same_bytes sizeof_Tin sizeof_Tout a b -> nin <= a /\ nout <= b.

(** Some pair exists. *)
Definition commensurate (sizeof_Tin sizeof_Tout : Z) : Prop :=
  exists a b, same_bytes sizeof_Tin sizeof_Tout a b.

(** The running sum [acc] after the elements [xs] have been added to it, one
    [+=] each, in order. *)
Definition summed {T F : Type} `{accumulator T F} (acc : T) (xs : list Z) : T :=
  fold_left acc_add xs acc.

(** The sum of a list of integers. *)
Definition zsum (xs : list Z) : Z := fold_right Z.add 0 xs.

(** What a descriptor holds for the completion of a torn element: reading
    the arrivals [arr] for [remain] more bytes gives the bytes obtained, the
    return values of the reads made, and the arrivals left; or [None] when,
    before [remain] bytes are there, a read returns 0 (end of data, empty
    arrival) or -1 (error). *)
Fixpoint torn_tail (arr : list arrival) (remain : Z)
  : option (list byte * list Z * list arrival) :=
  if remain <=? 0 then Some ([], [], arr)
  else match arr with
       | [] => None
       | IoError :: _ => None
       | Bytes bs :: rest =>
           let len := Z.of_nat (length bs) in
           if len =? 0 then None
           else if len <=? remain then
             match torn_tail rest (remain - len) with
             | Some (extra, rs, arr') => Some (bs ++ extra, len :: rs, arr')
             | None => None
             end
           else Some (firstn (Z.to_nat remain) bs, [remain],
                      Bytes (skipn (Z.to_nat remain) bs) :: rest)
       end.

(** The read calls that ask for what remains, after each result in [rs]. *)
Fixpoint completion_calls (remain : Z) (rs : list Z) : list syscall :=
  match rs with
  | [] => []
  | r :: rs' => SysRead remain r :: completion_calls (remain - r) rs'
  end.

(** Decimation by a counter: of the elements [xs], met after [k] earlier
    ones, those that make the number of elements met a multiple of [d]. *)
Fixpoint selected {T : Type} (d k : Z) (xs : list T) : list T :=
  match xs with
  | [] => []
  | x :: xs' =>
      if (k + 1) mod d =? 0 then x :: selected d (k + 1) xs'
      else selected d (k + 1) xs'
  end.

(** The write of one formatted line: the staging buffer after [snprintf] of
    the scaled element, the length [snprintf] returned, all of it written. *)
Definition formatted_line {T : Type} `{printable T} (lib : libc)
           (format : string) (scale : T) (x : T) : write_call :=
  let '(len, buf) := snprintf lib 256 format (times x scale) in
  mkwrite buf len len.

(** [snprintf] of the scaled element returns a length, not an error. *)
Definition formats {T : Type} `{printable T} (lib : libc)
           (format : string) (scale : T) (x : T) : Prop :=
  0 <= fst (snprintf lib 256 format (times x scale)) < 2 ^ 31.

(** The bytes a descriptor still has to deliver, in order. *)
Definition byte_stream (arr : list arrival) : list byte :=
  concat (map (fun a => match a with Bytes bs => bs | IoError => [] end) arr).

(** Modelled from the spec: the scheduler of leansdr/framework.h, which is
    not among the sources; the spec (sections 2 and 5) has it invoke a
    block's step again and again, one invocation at a time. [iterate run n]
    is [n] successive invocations of one block. *)
Fixpoint iterate {S : Type} (run : S -> outcome S) (n : nat) (s : S)
  : outcome S :=
  match n with
  | O => Done s
  | S n' => s' <- run s ;; iterate run n' s'
  end.

(** A serializer whose group counts give equal byte sizes, on a readable
    region of elements of the input width. *)
Definition grouped (sizeof_Tin sizeof_Tout : Z) (s : serializer.t) : Prop :=
  1 <= serializer.nin s < 2 ^ 31
  /\ 1 <= serializer.nout s < 2 ^ 31
  /\ serializer.nin s * sizeof_Tin = serializer.nout s * sizeof_Tout
  /\ Forall (fun e => Z.of_nat (length e) = sizeof_Tin)
            (items (serializer.in_ s)).

(** The number of whole groups an invocation can copy. *)
Definition groups (s : serializer.t) : Z :=
  Z.min (readable (serializer.in_ s) / serializer.nin s)
        (writable (serializer.out s) / serializer.nout s).

(** The text a printf-family call adds to its output: nothing when the call
    fails. *)
Definition rendered {T : Type} `{printable T} (format : string)
           (args : list T) : list byte :=
  match vprintf format args with
  | Some text => text
  | None => []
  end.




(** * Properties *)

(** ** Integer conversions *)

Lemma to_int_small (z : Z) : - 2 ^ 31 <= z < 2 ^ 31 -> to_int z = z.
Proof.
  intros Hz. unfold to_int.
  rewrite Z.mod_small by lia. lia.
Qed.

Lemma to_uint_small (z : Z) : 0 <= z < 2 ^ 32 -> to_uint z = z.
Proof. intros Hz. unfold to_uint. now rewrite Z.mod_small. Qed.

Lemma to_ulong_small (z : Z) : 0 <= z < 2 ^ 64 -> to_ulong z = z.
Proof. intros Hz. unfold to_ulong. now rewrite Z.mod_small. Qed.

Lemma min_spec (a b : Z) : min a b = Z.min a b.
Proof. unfold min. destruct (Z.ltb_spec b a); lia. Qed.

Lemma max_spec (a b : Z) : max a b = Z.max a b.
Proof. unfold max. destruct (Z.ltb_spec a b); lia. Qed.

(** ** serializer: construction *)

Section SerializerConstruction.
Variables sizeof_Tin sizeof_Tout : Z.
Hypothesis Tin_size : 0 < sizeof_Tin < 2 ^ 31.
Hypothesis Tout_size : 0 < sizeof_Tout < 2 ^ 31.

Lemma quotients_bounded :
  0 <= (sizeof_Tin / sizeof_Tout) <= sizeof_Tin /\ 0 <= (sizeof_Tout / sizeof_Tin) <= sizeof_Tout.
Proof.
  split; split.
  - apply Z.div_pos; lia.
  - apply Z.div_le_upper_bound; nia.
  - apply Z.div_pos; lia.
  - apply Z.div_le_upper_bound; nia.
Qed.

Lemma nin_init_value :
  serializer.nin_init sizeof_Tin sizeof_Tout = Z.max 1 (sizeof_Tin / sizeof_Tout).
Proof.
  unfold serializer.nin_init. rewrite max_spec.
  apply to_int_small. pose proof quotients_bounded. lia.
Qed.

Lemma nout_init_value :
  serializer.nout_init sizeof_Tin sizeof_Tout = Z.max 1 (sizeof_Tout / sizeof_Tin).
Proof.
  unfold serializer.nout_init. rewrite max_spec.
  apply to_int_small. pose proof quotients_bounded. lia.
Qed.

(** The byte counts compared by the constructor do not wrap. *)
Lemma group_bytes_exact :
  to_ulong (to_ulong (Z.max 1 (sizeof_Tin / sizeof_Tout)) * sizeof_Tin) = Z.max 1 (sizeof_Tin / sizeof_Tout) * sizeof_Tin
  /\ to_ulong (to_ulong (Z.max 1 (sizeof_Tout / sizeof_Tin)) * sizeof_Tout) = Z.max 1 (sizeof_Tout / sizeof_Tin) * sizeof_Tout.
Proof.
  pose proof quotients_bounded as [Hi Ho].
  split.
  - rewrite (to_ulong_small (Z.max 1 (sizeof_Tin / sizeof_Tout))) by lia.
    apply to_ulong_small. change (2 ^ 64) with (2 ^ 31 * 2 ^ 33). nia.
  - rewrite (to_ulong_small (Z.max 1 (sizeof_Tout / sizeof_Tin))) by lia.
    apply to_ulong_small. change (2 ^ 64) with (2 ^ 31 * 2 ^ 33). nia.
Qed.

(** The two group sizes agree only for equal element sizes: with
    [sizeof_Tin = k * sizeof_Tout] the initialisers give [nin = k], [nout = 1],
    and [k * sizeof_Tin] is compared with [sizeof_Tout]. *)
Lemma group_bytes_equal_iff :
  Z.max 1 (sizeof_Tin / sizeof_Tout) * sizeof_Tin = Z.max 1 (sizeof_Tout / sizeof_Tin) * sizeof_Tout
  <-> sizeof_Tin = sizeof_Tout.
Proof.
  split.
  - intros Heq.
    destruct (Z.lt_trichotomy sizeof_Tin sizeof_Tout) as [Hlt | [Heq' | Hgt]];
      [exfalso | assumption | exfalso].
    + assert (sizeof_Tin / sizeof_Tout = 0) as Hq by (apply Z.div_small; lia).
      rewrite Hq in Heq. nia.
    + assert (sizeof_Tout / sizeof_Tin = 0) as Hq by (apply Z.div_small; lia).
      rewrite Hq in Heq. nia.
  - intros Heq. rewrite Heq. reflexivity.
Qed.

Lemma construct_done_iff (_in _out : pipebuf element) :
  serializer.construct sizeof_Tin sizeof_Tout _in _out
  = (if sizeof_Tin =? sizeof_Tout
     then Done (serializer.mk 1 1 _in _out)
     else Fatal "serializer: incompatible sizes").
Proof.
  unfold serializer.construct.
  rewrite nin_init_value, nout_init_value.
  destruct group_bytes_exact as [-> ->].
  destruct (Z.eqb_spec sizeof_Tin sizeof_Tout) as [Heq | Hne].
  - rewrite (proj2 group_bytes_equal_iff Heq), Z.eqb_refl. cbn [negb].
    rewrite Heq, Z.div_same by lia. reflexivity.
  - destruct (Z.eqb_spec (Z.max 1 (sizeof_Tin / sizeof_Tout) * sizeof_Tin)
                         (Z.max 1 (sizeof_Tout / sizeof_Tin) * sizeof_Tout)) as [Heq | _].
    + apply group_bytes_equal_iff in Heq. contradiction.
    + reflexivity.
Qed.
End SerializerConstruction.

(** C1, as stated, fails: for a 4-byte input element and a 6-byte output
    element the pair (3, 2) has equal byte size (12), yet construction
    fails. *)
Lemma serializer_4_6_fails_though_commensurate :
  serializer.construct 4 6 (mkpipe [] 16) (mkpipe [] 16)
  = Fatal "serializer: incompatible sizes"
  /\ commensurate 4 6.
Proof.
  split.
  - reflexivity.
  - exists 3, 2. unfold same_bytes. lia.
Qed.

(** C1 (amended): whenever construction succeeds, the pair (nin, nout) it
    has computed is the smallest pair of positive integers such that nin
    input elements and nout output elements have the same byte size; and
    construction fails fatally whenever neither element size is a multiple
    of the other. *)
Theorem serializer_construct_group
        (sizeof_Tin sizeof_Tout : Z) (_in _out : pipebuf element)
        (Tin_size : 0 < sizeof_Tin < 2 ^ 31)
        (Tout_size : 0 < sizeof_Tout < 2 ^ 31) :
  (forall s, serializer.construct sizeof_Tin sizeof_Tout _in _out = Done s ->
             smallest_group sizeof_Tin sizeof_Tout
                            (serializer.nin s) (serializer.nout s))
  /\ (sizeof_Tin mod sizeof_Tout <> 0 -> sizeof_Tout mod sizeof_Tin <> 0 ->
      serializer.construct sizeof_Tin sizeof_Tout _in _out
      = Fatal "serializer: incompatible sizes").
Proof.
  rewrite construct_done_iff by assumption.
  destruct (Z.eqb_spec sizeof_Tin sizeof_Tout) as [Heq | Hne]; split.
  - intros s Hs. injection Hs as <-. cbn [serializer.nin serializer.nout].
    unfold smallest_group, same_bytes. subst sizeof_Tout.
    split; [lia | intros a b ?; lia].
  - intros Hin _. subst sizeof_Tout. rewrite Z.mod_same in Hin by lia.
    contradiction.
  - intros s Hs. discriminate Hs.
  - reflexivity.
Qed.

Lemma serializer_construct_group_witness :
  (exists s, serializer.construct 4 4 (mkpipe [] 16) (mkpipe [] 16) = Done s
             /\ smallest_group 4 4 (serializer.nin s) (serializer.nout s))
  /\ serializer.construct 4 6 (mkpipe [] 16) (mkpipe [] 16)
     = Fatal "serializer: incompatible sizes".
Proof.
  split.
  - eexists. split; [reflexivity |].
    apply (serializer_construct_group 4 4 (mkpipe [] 16) (mkpipe [] 16));
      [lia | lia | reflexivity].
  - apply (serializer_construct_group 4 6 (mkpipe [] 16) (mkpipe [] 16));
      [lia | lia | discriminate | discriminate ].
Defined.

(** C2: with a 2-byte input element and an 8-byte output element the
    constructor computes nin = 1 and nout = 4 (not nin = 4, nout = 1),
    compares 1 * 2 bytes with 4 * 8 bytes, and fails. *)
Theorem serializer_2_8_construction_fails (_in _out : pipebuf element) :
  serializer.nin_init 2 8 = 1
  /\ serializer.nout_init 2 8 = 4
  /\ serializer.construct 2 8 _in _out = Fatal "serializer: incompatible sizes".
Proof. repeat split. Qed.

(** The step itself, on a serializer holding the pair (4, 1) for 2-byte
    inputs and 8-byte outputs: 9 readable elements give 2 output elements,
    each the concatenation of 4 inputs, and the 9th input stays; no partial
    group is copied. The constructor never yields this pair. *)
Lemma serializer_run_rechunks_whole_groups :
  serializer.run 3 8
    (serializer.mk 4 1
       (mkpipe [[x01; x02]; [x03; x04]; [x05; x06]; [x07; x08];
                [x09; x0a]; [x0b; x0c]; [x0d; x0e]; [x0f; x10];
                [x11; x12]] 0)
       (mkpipe [] 5))
  = Done (serializer.mk 4 1
            (mkpipe [[x11; x12]] 0)
            (mkpipe [[x01; x02; x03; x04; x05; x06; x07; x08];
                     [x09; x0a; x0b; x0c; x0d; x0e; x0f; x10]] 3)).
Proof. reflexivity. Qed.

(** ** decimator *)

Section Decimator.
Context {T : Type}.

Lemma deref_in_range (region : list T) (i : Z) :
  0 <= i < Z.of_nat (length region) ->
  exists x, deref region i = Done x
            /\ nth_error region (Z.to_nat i) = Some x.
Proof.
  intros Hi. unfold deref.
  destruct (Z.ltb_spec i 0); [lia |].
  destruct (nth_error region (Z.to_nat i)) as [x |] eqn:Hx.
  - exists x. split; reflexivity.
  - apply nth_error_None in Hx. lia.
Qed.

(** [n] passes of the copy loop, started at the [j]-th group, store the
    first elements of groups [j], [j+1], ..., [j+n-1]. *)
Lemma for_loop_forwards (region : list T) (d : Z) (n : nat) :
  1 <= d ->
  forall (j : Z) (staged : list T),
    0 <= j ->
    (j + Z.of_nat n) * d <= Z.of_nat (length region) ->
    exists fwd,
      decimator.for_loop n region d (j * d) ((j + Z.of_nat n) * d) staged
      = Done (staged ++ fwd)
      /\ length fwd = n
      /\ forall i, (i < n)%nat ->
                   nth_error fwd i
                   = nth_error region (Z.to_nat ((j + Z.of_nat i) * d)).
Proof.
  intros Hd. induction n as [| n IH]; intros j staged Hj Hlen.
  - exists []. cbn [decimator.for_loop].
    replace (j + Z.of_nat 0) with j by lia. rewrite Z.ltb_irrefl.
    rewrite app_nil_r. repeat split. intros i Hi. lia.
  - cbn [decimator.for_loop].
    destruct (Z.ltb_spec (j * d) ((j + Z.of_nat (S n)) * d)) as [_ | Hge];
      [| nia].
    destruct (deref_in_range region (j * d)) as (x & -> & Hx); [nia |].
    cbn [bind].
    destruct (IH (j + 1) (staged ++ [x])) as (fwd & Hrun & Hlenf & Hnth);
      [lia | nia |].
    replace ((j + 1) * d) with (j * d + d) in Hrun by lia.
    replace (j + 1 + Z.of_nat n) with (j + Z.of_nat (S n)) in Hrun by lia.
    exists (x :: fwd). rewrite Hrun, <- app_assoc. cbn [app].
    split; [reflexivity |]. split; [cbn [length]; lia |].
    intros [| i] Hi.
    + cbn [nth_error]. replace (j + Z.of_nat 0) with j by lia. now rewrite Hx.
    + cbn [nth_error]. rewrite Hnth by lia. do 2 f_equal. lia.
Qed.

(** The step of a decimator whose factor is at least 1. *)
Lemma decimator_run_done (s : decimator.t (T:=T)) :
  1 <= decimator.d s ->
  readable (decimator.in_ s) < 2 ^ 64 ->
  let count := Z.min (readable (decimator.in_ s) / decimator.d s)
                     (writable (decimator.out s)) in
  exists fwd,
    decimator.run s
    = Done (decimator.mk (decimator.d s)
              (read (count * decimator.d s) (decimator.in_ s))
              (written fwd count (decimator.out s)))
    /\ Z.of_nat (length fwd) = count
    /\ forall k, 0 <= k < count ->
                 nth_error fwd (Z.to_nat k)
                 = nth_error (items (decimator.in_ s))
                             (Z.to_nat (k * decimator.d s)).
Proof.
  intros Hd Hlen count. unfold decimator.run.
  destruct (Z.eqb_spec (decimator.d s) 0) as [H0 | _]; [lia |].
  rewrite min_spec. fold count.
  assert (0 <= readable (decimator.in_ s) / decimator.d s) as Hq
      by (apply Z.div_pos; unfold readable; lia).
  assert (0 <= count) as Hc by (unfold count, writable; lia).
  assert (count * decimator.d s <= readable (decimator.in_ s)) as Hfit.
  { pose proof (Z.mul_div_le (readable (decimator.in_ s)) (decimator.d s)).
    unfold count. nia. }
  rewrite (to_ulong_small (count * decimator.d s)) by nia.
  destruct (for_loop_forwards (rd (decimator.in_ s)) (decimator.d s)
                              (Z.to_nat count) Hd 0 [])
    as (fwd & Hrun & Hlenf & Hnth); [lia | unfold rd, readable in *; lia |].
  cbn [Z.mul Z.add] in Hrun. rewrite Z2Nat.id in Hrun by lia.
  exists fwd. rewrite Hrun. cbn [bind app].
  split; [reflexivity |]. split; [lia |].
  intros k Hk. rewrite Hnth by lia. unfold rd.
  rewrite Z2Nat.id by lia. reflexivity.
Qed.
End Decimator.

(** C6: a decimator with factor D >= 1, given N readable elements and room
    for at least N/D, forwards exactly N/D elements, the input elements at
    positions 0, D, 2D, ... in that order, consumes (N/D)*D elements and
    leaves the last N mod D elements on the input stream. *)
Theorem decimator_forwards_one_in_D {T : Type} (s : decimator.t (T:=T))
        (HD : 1 <= decimator.d s)
        (HN : readable (decimator.in_ s) < 2 ^ 64)
        (Hroom : readable (decimator.in_ s) / decimator.d s
                 <= writable (decimator.out s)) :
  let N := readable (decimator.in_ s) in
  let D := decimator.d s in
  exists s' fwd,
    decimator.run s = Done s'
    /\ items (decimator.out s') = items (decimator.out s) ++ fwd
    /\ Z.of_nat (length fwd) = N / D
    /\ (forall k, 0 <= k < N / D ->
                  nth_error fwd (Z.to_nat k)
                  = nth_error (items (decimator.in_ s)) (Z.to_nat (k * D)))
    /\ items (decimator.in_ s')
       = skipn (Z.to_nat (N / D * D)) (items (decimator.in_ s))
    /\ readable (decimator.in_ s') = N mod D
    /\ decimator.d s' = D.
Proof.
  intros N D.
  destruct (decimator_run_done s HD HN) as (fwd & Hrun & Hlen & Hnth).
  rewrite Z.min_l in Hrun, Hlen, Hnth by assumption.
  fold N D in Hrun, Hlen, Hnth.
  eexists. exists fwd. split; [exact Hrun |].
  cbn [decimator.out decimator.in_ decimator.d written read items].
  assert (0 <= N / D) as Hq by (apply Z.div_pos; unfold N, readable; lia).
  repeat split.
  - f_equal. apply firstn_all2. lia.
  - exact Hlen.
  - exact Hnth.
  - unfold readable at 1. unfold read. cbn [items]. rewrite length_skipn.
    pose proof (Z.mul_div_le N D ltac:(lia)) as Hle.
    rewrite (Z.mod_eq N D) by lia. unfold N, readable in *. lia.
Qed.

Lemma decimator_forwards_one_in_D_witness :
  exists s' fwd,
    decimator.run (decimator.construct 3 (mkpipe [10; 11; 12; 13; 14; 15; 16; 17] 0)
                                       (mkpipe [] 4))
    = Done s'
    /\ items (decimator.out s') = [] ++ fwd
    /\ Z.of_nat (length fwd) = 8 / 3
    /\ (forall k, 0 <= k < 8 / 3 ->
                  nth_error fwd (Z.to_nat k)
                  = nth_error [10; 11; 12; 13; 14; 15; 16; 17] (Z.to_nat (k * 3)))
    /\ items (decimator.in_ s') = skipn (Z.to_nat (8 / 3 * 3))
                                        [10; 11; 12; 13; 14; 15; 16; 17]
    /\ readable (decimator.in_ s') = 8 mod 3
    /\ decimator.d s' = 3.
Proof.
  apply (decimator_forwards_one_in_D
           (decimator.construct 3 (mkpipe [10; 11; 12; 13; 14; 15; 16; 17] 0)
                                (mkpipe [] 4))).
  - vm_compute. discriminate.
  - vm_compute. reflexivity.
  - vm_compute. discriminate.
Defined.

(** C10: the constructor stores any factor unchecked, the step divides by
    it: the step returns exactly when the stored factor is at least 1, and a
    decimator constructed with factor 0 divides by zero in its step. *)
Theorem decimator_step_defined_iff_factor_positive {T : Type}
        (_d : Z) (_in _out : pipebuf T)
        (HN : readable _in < 2 ^ 64) :
  decimator.d (decimator.construct _d _in _out) = to_uint _d
  /\ ((exists s', decimator.run (decimator.construct _d _in _out) = Done s')
      <-> 1 <= to_uint _d)
  /\ decimator.run (decimator.construct 0 _in _out)
     = Undefined "division by zero".
Proof.
  split; [reflexivity |]. split; [| reflexivity].
  split.
  - intros [s' Hrun]. unfold decimator.run in Hrun.
    cbn [decimator.construct decimator.d] in Hrun.
    destruct (Z.eqb_spec (to_uint _d) 0) as [_ | Hne]; [discriminate |].
    pose proof (Z.mod_pos_bound _d (2 ^ 32) ltac:(lia)). unfold to_uint in *. lia.
  - intros Hd.
    destruct (decimator_run_done (decimator.construct _d _in _out) Hd HN)
      as (fwd & Hrun & _).
    eexists. exact Hrun.
Qed.

Lemma decimator_step_defined_iff_factor_positive_witness :
  decimator.d (decimator.construct 0 (mkpipe [10; 11; 12] 0) (mkpipe [] 4)) = 0
  /\ ~ (exists s', decimator.run (decimator.construct 0 (mkpipe [10; 11; 12] 0)
                                                      (mkpipe [] 4)) = Done s')
  /\ decimator.run (decimator.construct 0 (mkpipe [10; 11; 12] 0) (mkpipe [] 4))
     = Undefined "division by zero".
Proof.
  destruct (decimator_step_defined_iff_factor_positive
              0 (mkpipe [10; 11; 12] 0) (mkpipe [] 4)) as (Hd & Hiff & Hub).
  - vm_compute. reflexivity.
  - split; [exact Hd |]. split; [| exact Hub].
    intros Hdone. apply Hiff in Hdone. vm_compute in Hdone. apply Hdone. reflexivity.
Defined.

(** ** rate_estimator *)

Lemma skipn_cons_nth {A : Type} (l : list A) (p : nat) (x : A) :
  nth_error l p = Some x -> skipn p l = x :: skipn (S p) l.
Proof.
  revert p. induction l as [| a l IH]; intros [| p] Hx; cbn in *;
    try discriminate.
  - now injection Hx as ->.
  - now apply IH.
Qed.

Section RateEstimator.
Context {T F : Type} `{accumulator T F}.

Lemma for_loop_sums (rnum rden : list Z) (k : nat) :
  forall (fuel : nat) (p : Z) (an ad : T),
    (k <= fuel)%nat ->
    Z.of_nat k < 2 ^ 31 ->
    0 <= p ->
    p + Z.of_nat k <= Z.of_nat (length rnum) ->
    p + Z.of_nat k <= Z.of_nat (length rden) ->
    rate_estimator.for_loop fuel rnum rden (Z.of_nat k) p p an ad
    = Done (summed an (firstn k (skipn (Z.to_nat p) rnum)),
            summed ad (firstn k (skipn (Z.to_nat p) rden))).
Proof.
  induction k as [| k IH]; intros fuel p an ad Hfuel Hk Hp Hnum Hden.
  - destruct fuel; reflexivity.
  - destruct fuel as [| fuel]; [lia |].
    cbn [rate_estimator.for_loop].
    destruct (Z.eqb_spec (Z.of_nat (S k)) 0) as [H0 | _]; [lia |].
    destruct (deref_in_range rnum p) as (x & -> & Hx); [lia |].
    destruct (deref_in_range rden p) as (y & -> & Hy); [lia |].
    cbn [bind].
    replace (to_int (Z.of_nat (S k) - 1)) with (Z.of_nat k)
      by (rewrite to_int_small; lia).
    rewrite IH by lia.
    rewrite (skipn_cons_nth rnum _ x Hx), (skipn_cons_nth rden _ y Hy).
    replace (Z.to_nat (p + 1)) with (S (Z.to_nat p)) by lia.
    reflexivity.
Qed.

(** The step of a rate estimator whose output has room. *)
Lemma rate_estimator_run_done (s : rate_estimator.t (T:=T) (F:=F)) :
  1 <= writable (rate_estimator.rate s) ->
  Z.min (readable (rate_estimator.num s)) (readable (rate_estimator.den s))
  < 2 ^ 31 ->
  let count := Z.min (readable (rate_estimator.num s))
                     (readable (rate_estimator.den s)) in
  let an := summed (rate_estimator.acc_num s)
                   (firstn (Z.to_nat count) (items (rate_estimator.num s))) in
  let ad := summed (rate_estimator.acc_den s)
                   (firstn (Z.to_nat count) (items (rate_estimator.den s))) in
  rate_estimator.run s
  = Done (if acc_ge ad (rate_estimator.sample_size s)
          then rate_estimator.mk (rate_estimator.sample_size s)
                 (read count (rate_estimator.num s))
                 (read count (rate_estimator.den s))
                 (write (acc_ratio an ad) (rate_estimator.rate s))
                 acc_zero acc_zero
          else rate_estimator.mk (rate_estimator.sample_size s)
                 (read count (rate_estimator.num s))
                 (read count (rate_estimator.den s))
                 (rate_estimator.rate s) an ad).
Proof.
  intros Hroom Hsmall count an ad. unfold rate_estimator.run.
  destruct (Z.ltb_spec (writable (rate_estimator.rate s)) 1); [lia |].
  rewrite min_spec. fold count.
  assert (0 <= count) as Hc by (unfold count, readable; lia).
  rewrite (to_int_small count) by lia.
  rewrite to_uint_small by lia.
  rewrite (to_ulong_small count) by lia.
  pose proof (for_loop_sums (rd (rate_estimator.num s))
                            (rd (rate_estimator.den s)) (Z.to_nat count)
                            (Z.to_nat count) 0
                            (rate_estimator.acc_num s)
                            (rate_estimator.acc_den s)) as Hloop.
  rewrite Z2Nat.id in Hloop by lia.
  rewrite Hloop by (unfold rd, count, readable in *; lia).
  cbn [bind Z.to_nat skipn]. unfold rd. fold an ad.
  destruct (acc_ge ad (rate_estimator.sample_size s)); reflexivity.
Qed.
End RateEstimator.

(** 32-bit sums: the wrapped sum of the wrapped additions. *)
Lemma to_int_add_l (u v : Z) : to_int (to_int u + v) = to_int (u + v).
Proof.
  unfold to_int. f_equal.
  replace ((u + 2 ^ 31) mod 2 ^ 32 - 2 ^ 31 + v + 2 ^ 31)
    with ((u + 2 ^ 31) mod 2 ^ 32 + v) by lia.
  rewrite Zplus_mod_idemp_l. f_equal. lia.
Qed.

Lemma summed_int (xs : list Z) (a : Z) :
  - 2 ^ 31 <= a < 2 ^ 31 ->
  summed (T:=Z) a xs = to_int (a + zsum xs).
Proof.
  revert a. induction xs as [| x xs IH]; intros a Ha.
  - cbn. rewrite Z.add_0_r. symmetry. now apply to_int_small.
  - change (summed a (x :: xs)) with (summed (T:=Z) (to_int (a + x)) xs).
    rewrite IH.
    + rewrite to_int_add_l. unfold zsum. cbn [fold_right]. f_equal. lia.
    + unfold to_int. pose proof (Z.mod_pos_bound (a + x + 2 ^ 31) (2 ^ 32)). lia.
Qed.

(** C4: an invocation whose output has room for one value consumes the
    lesser of the two readable counts from both inputs, adds the consumed
    elements to the two running sums, and then either (denominator sum at or
    above the threshold) emits the one value numerator sum / denominator sum
    and resets both sums to zero, or emits nothing and keeps the sums. *)
Theorem rate_estimator_accumulates_then_emits
        {T F : Type} `{accumulator T F} (s : rate_estimator.t (T:=T) (F:=F))
        (Hroom : 1 <= writable (rate_estimator.rate s))
        (Hcount : Z.min (readable (rate_estimator.num s))
                        (readable (rate_estimator.den s)) < 2 ^ 31) :
  let count := Z.min (readable (rate_estimator.num s))
                     (readable (rate_estimator.den s)) in
  let an := summed (rate_estimator.acc_num s)
                   (firstn (Z.to_nat count) (items (rate_estimator.num s))) in
  let ad := summed (rate_estimator.acc_den s)
                   (firstn (Z.to_nat count) (items (rate_estimator.den s))) in
  exists s',
    rate_estimator.run s = Done s'
    /\ items (rate_estimator.num s')
       = skipn (Z.to_nat count) (items (rate_estimator.num s))
    /\ items (rate_estimator.den s')
       = skipn (Z.to_nat count) (items (rate_estimator.den s))
    /\ rate_estimator.sample_size s' = rate_estimator.sample_size s
    /\ if acc_ge ad (rate_estimator.sample_size s)
       then items (rate_estimator.rate s')
            = items (rate_estimator.rate s) ++ [acc_ratio an ad]
            /\ rate_estimator.acc_num s' = acc_zero
            /\ rate_estimator.acc_den s' = acc_zero
       else rate_estimator.rate s' = rate_estimator.rate s
            /\ rate_estimator.acc_num s' = an
            /\ rate_estimator.acc_den s' = ad.
Proof.
  intros count an ad.
  eexists. split; [apply rate_estimator_run_done; assumption |].
  fold count an ad.
  destruct (acc_ge ad (rate_estimator.sample_size s)); repeat split.
Qed.

Lemma rate_estimator_accumulates_then_emits_witness :
  exists s',
    rate_estimator.run
      (rate_estimator.mk 100 (mkpipe [1; 2; 3] 0) (mkpipe [40; 50; 10; 7] 0)
                         (mkpipe [] 1) 0 0)
    = Done s'
    /\ items (rate_estimator.num s') = []
    /\ items (rate_estimator.den s') = [7]
    /\ items (rate_estimator.rate s') = [FDiv 6 100]
    /\ rate_estimator.acc_num s' = 0
    /\ rate_estimator.acc_den s' = 0.
Proof.
  destruct (rate_estimator_accumulates_then_emits
              (rate_estimator.mk 100 (mkpipe [1; 2; 3] 0)
                                 (mkpipe [40; 50; 10; 7] 0)
                                 (mkpipe [] 1) 0 0))
    as (s' & Hrun & Hnum & Hden & _ & Hemit).
  - vm_compute. discriminate.
  - vm_compute. reflexivity.
  - exists s'. vm_compute in Hnum, Hden, Hemit.
    destruct Hemit as (Hrate & Han & Had).
    repeat split; assumption.
Defined.

(** [rate_estimator<int>] with [sample_size = 100]: when the denominator sum
    reaches exactly 100 the value emitted is (numerator sum) / 100 and both
    sums read 0 afterwards. *)
Lemma rate_estimator_int_threshold_100
      (s : rate_estimator.t (T:=Z) (F:=float_quotient)) :
  let count := Z.min (readable (rate_estimator.num s))
                     (readable (rate_estimator.den s)) in
  let nsum := rate_estimator.acc_num s
              + zsum (firstn (Z.to_nat count) (items (rate_estimator.num s))) in
  let dsum := rate_estimator.acc_den s
              + zsum (firstn (Z.to_nat count) (items (rate_estimator.den s))) in
  1 <= writable (rate_estimator.rate s) ->
  count < 2 ^ 31 ->
  rate_estimator.sample_size s = 100 ->
  - 2 ^ 31 <= rate_estimator.acc_num s < 2 ^ 31 ->
  - 2 ^ 31 <= rate_estimator.acc_den s < 2 ^ 31 ->
  - 2 ^ 31 <= nsum < 2 ^ 31 ->
  dsum = 100 ->
  rate_estimator.run s
  = Done (rate_estimator.mk 100
            (read count (rate_estimator.num s))
            (read count (rate_estimator.den s))
            (write (FDiv nsum 100) (rate_estimator.rate s)) 0 0).
Proof.
  intros count nsum dsum Hroom Hcount Hsize Han Had Hnsum Hdsum.
  rewrite rate_estimator_run_done by assumption.
  fold count. rewrite !summed_int by assumption.
  fold nsum dsum. rewrite Hdsum, Hsize, (to_int_small nsum) by assumption.
  reflexivity.
Qed.

(** C5: with no room on the output the step returns at once: nothing is
    consumed from either input, the sums are unchanged, nothing is emitted. *)
Theorem rate_estimator_no_room_no_work
        {T F : Type} `{accumulator T F} (s : rate_estimator.t (T:=T) (F:=F))
        (Hfull : writable (rate_estimator.rate s) = 0) :
  rate_estimator.run s = Done s.
Proof.
  unfold rate_estimator.run. rewrite Hfull. reflexivity.
Qed.

Lemma rate_estimator_no_room_no_work_witness :
  rate_estimator.run
    (rate_estimator.mk 100 (mkpipe [1; 2; 3] 0) (mkpipe [40; 50; 10] 0)
                       (mkpipe [FDiv 1 2] 0) 5 99)
  = Done (rate_estimator.mk 100 (mkpipe [1; 2; 3] 0) (mkpipe [40; 50; 10] 0)
                            (mkpipe [FDiv 1 2] 0) 5 99).
Proof.
  apply (rate_estimator_no_room_no_work
           (rate_estimator.mk 100 (mkpipe [1; 2; 3] 0) (mkpipe [40; 50; 10] 0)
                              (mkpipe [FDiv 1 2] 0) 5 99)).
  reflexivity.
Defined.

(** ** file_reader *)

Lemma torn_tail_obtains (arr : list arrival) :
  forall remain extra rs arr',
    0 <= remain ->
    torn_tail arr remain = Some (extra, rs, arr') ->
    Z.of_nat (length extra) = remain
    /\ Forall (fun r => 0 < r) rs
    /\ zsum rs = remain.
Proof.
  induction arr as [| a arr IH]; intros remain extra rs arr' Hrem Htail.
  - cbn in Htail. destruct (Z.leb_spec remain 0); [| discriminate].
    injection Htail as <- <- <-. cbn. repeat split; [lia | constructor | lia].
  - cbn [torn_tail] in Htail.
    destruct (Z.leb_spec remain 0).
    { injection Htail as <- <- <-. cbn. repeat split; [lia | constructor | lia]. }
    destruct a as [bs |]; [| discriminate].
    destruct (Z.eqb_spec (Z.of_nat (length bs)) 0); [discriminate |].
    destruct (Z.leb_spec (Z.of_nat (length bs)) remain).
    + destruct (torn_tail arr (remain - Z.of_nat (length bs)))
        as [[[e rs0] a0] |] eqn:Hrec; [| discriminate].
      injection Htail as <- <- <-.
      destruct (IH (remain - Z.of_nat (length bs)) e rs0 a0)
        as (Hlen & Hpos & Hsum); [lia | exact Hrec |].
      rewrite length_app. cbn [zsum fold_right]. fold (zsum rs0).
      repeat split; [lia | constructor; [lia | assumption] | lia].
    + injection Htail as <- <- <-.
      rewrite length_firstn. cbn [zsum fold_right].
      repeat split; [lia | repeat constructor; lia | lia].
Qed.

Lemma torn_tail_zero (arr : list arrival) : torn_tail arr 0 = Some ([], [], arr).
Proof. destruct arr; reflexivity. Qed.

(** [torn_tail], one read at a time: it is [None] exactly when one of the
    reads that ask for the missing bytes returns zero or a negative result. *)
Lemma torn_tail_by_reads (fd : source) (remain : Z) :
  0 < remain ->
  torn_tail (pending fd) remain
  = let '(r, bs, fd') := sys_read fd remain in
    if r <=? 0 then None
    else match torn_tail (pending fd') (remain - r) with
         | Some (extra, rs, arr') => Some (bs ++ extra, r :: rs, arr')
         | None => None
         end.
Proof.
  intros Hrem. unfold sys_read.
  destruct (pending fd) as [| [bs |] rest]; cbn [torn_tail].
  - destruct (Z.leb_spec remain 0); [lia | reflexivity].
  - destruct (Z.leb_spec remain 0); [lia |].
    destruct (Z.leb_spec (Z.of_nat (length bs)) remain) as [Hle | Hgt].
    + cbn [pending].
      destruct (Z.eqb_spec (Z.of_nat (length bs)) 0) as [H0 | Hpos].
      * rewrite H0. reflexivity.
      * destruct (Z.leb_spec (Z.of_nat (length bs)) 0); [lia | reflexivity].
    + destruct (Z.eqb_spec (Z.of_nat (length bs)) 0); [lia |].
      destruct (Z.leb_spec remain 0); [lia |].
      cbn [pending]. rewrite Z.sub_diag, torn_tail_zero, app_nil_r.
      reflexivity.
  - destruct (Z.leb_spec remain 0); [lia | reflexivity].
Qed.

(** The completion loop obtains what [torn_tail] describes, or is fatal. *)
Lemma complete_spec (fuel : nat) :
  forall (fd : source) (nr remain : Z) (data : list byte),
    0 <= remain < 2 ^ 64 ->
    remain <= Z.of_nat fuel ->
    file_reader.complete fuel fd nr remain data
    = match torn_tail (pending fd) remain with
      | Some (extra, rs, arr') =>
          Done (nr + remain, data ++ extra,
                mksource arr' (origin fd) (seekable fd)
                         (calls fd ++ completion_calls remain rs))
      | None => Fatal "partial read"
      end.
Proof.
  assert (forall fd nr data,
             Done (nr, data, fd)
             = match torn_tail (pending fd) 0 with
               | Some (extra, rs, arr') =>
                   Done (nr + 0, data ++ extra,
                         mksource arr' (origin fd) (seekable fd)
                                  (calls fd ++ completion_calls 0 rs))
               | None => Fatal "partial read"
               end) as Hzero.
  { intros [arr o sk cs] nr data. rewrite torn_tail_zero.
    cbn. now rewrite Z.add_0_r, !app_nil_r. }
  induction fuel as [| fuel IH]; intros fd nr remain data Hrem Hfuel.
  - replace remain with 0 by lia. apply Hzero.
  - cbn [file_reader.complete].
    destruct (Z.eqb_spec remain 0) as [-> | Hne]; [apply Hzero |].
    unfold sys_read.
    destruct (pending fd) as [| [bs |] rest] eqn:Hpend; cbn [torn_tail].
    + destruct (Z.leb_spec remain 0); [lia | reflexivity].
    + destruct (Z.leb_spec remain 0); [lia |].
      destruct (Z.leb_spec (Z.of_nat (length bs)) remain) as [Hle | Hgt].
      * destruct (Z.eqb_spec (Z.of_nat (length bs)) 0) as [H0 | Hpos].
        { rewrite H0. reflexivity. }
        destruct (Z.leb_spec (Z.of_nat (length bs)) 0); [lia |].
        rewrite to_ulong_small by lia.
        rewrite IH by lia. cbn [pending origin seekable calls].
        destruct (torn_tail rest (remain - Z.of_nat (length bs)))
          as [[[e rs0] a0] |]; [| reflexivity].
        cbn [completion_calls]. rewrite <- !app_assoc. cbn [app].
        do 3 f_equal. lia.
      * destruct (Z.leb_spec remain 0); [lia |].
        destruct (Z.eqb_spec (Z.of_nat (length bs)) 0); [lia |].
        rewrite Z.sub_diag. change (to_ulong 0) with 0.
        destruct fuel; reflexivity.
    + destruct (Z.leb_spec remain 0); [lia | reflexivity].
Qed.

(** Cutting a whole number of elements out of a byte string. *)
Lemma chunks_aux_whole (w : nat) :
  (1 <= w)%nat ->
  forall (k fuel : nat) (bs : list byte),
    length bs = (k * w)%nat ->
    (k <= fuel)%nat ->
    length (chunks_aux fuel w bs) = k
    /\ Forall (fun e => length e = w) (chunks_aux fuel w bs)
    /\ concat (chunks_aux fuel w bs) = bs.
Proof.
  intros Hw. induction k as [| k IH]; intros fuel bs Hlen Hfuel.
  - destruct bs; [| discriminate].
    destruct fuel; cbn; repeat split; constructor.
  - destruct fuel as [| fuel]; [lia |].
    destruct bs as [| b bs]; [cbn in Hlen; lia |].
    cbn [chunks_aux]. set (l := b :: bs) in *.
    destruct (IH fuel (skipn w l)) as (Hk & Hall & Hcat).
    + rewrite length_skipn. lia.
    + lia.
    + cbn [length concat]. rewrite Hk, Hcat, firstn_skipn.
      repeat split. constructor; [| assumption].
      rewrite length_firstn. lia.
Qed.

Lemma chunks_whole (w k : nat) (bs : list byte) :
  (1 <= w)%nat ->
  length bs = (k * w)%nat ->
  length (chunks w bs) = k
  /\ Forall (fun e => length e = w) (chunks w bs)
  /\ concat (chunks w bs) = bs.
Proof.
  intros Hw Hlen. apply chunks_aux_whole; [assumption | assumption | nia].
Qed.

(** A read from a descriptor whose next arrival is a run of bytes. *)
Lemma sys_read_bytes (fd : source) (count : Z) (bs : list byte)
      (rest : list arrival) :
  pending fd = Bytes bs :: rest ->
  let got := Z.min (Z.of_nat (length bs)) count in
  sys_read fd count
  = (got, firstn (Z.to_nat got) bs,
     mksource (if Z.of_nat (length bs) <=? count then rest
               else Bytes (skipn (Z.to_nat count) bs) :: rest)
              (origin fd) (seekable fd) (calls fd ++ [SysRead count got])).
Proof.
  intros Hpend got. unfold sys_read. rewrite Hpend. subst got.
  destruct (Z.leb_spec (Z.of_nat (length bs)) count).
  - rewrite Z.min_l, Nat2Z.id, firstn_all by lia. reflexivity.
  - rewrite Z.min_r by lia. reflexivity.
Qed.

(** Completing a torn count [nr] to the next element boundary. *)
Lemma torn_count (w nr : Z) :
  1 <= w -> 0 <= nr -> nr mod w <> 0 ->
  let remain := w - nr mod w in
  0 < remain < w
  /\ nr + remain = (nr / w + 1) * w
  /\ (nr + remain) / w = nr / w + 1
  /\ 0 <= nr / w.
Proof.
  intros Hw Hnr Htorn remain.
  pose proof (Z.mod_pos_bound nr w ltac:(lia)) as Hmod.
  pose proof (Z.div_mod nr w ltac:(lia)) as Hdm.
  assert (nr + remain = (nr / w + 1) * w) as Hsum by (subst remain; lia).
  repeat split.
  - subst remain. lia.
  - subst remain. lia.
  - exact Hsum.
  - rewrite Hsum. apply Z.div_mul. lia.
  - apply Z.div_pos; lia.
Qed.

(** C3: when the first read of an invocation returns a positive byte count
    that is not a multiple of the element width, the adapter reads on, each
    time asking for what is still missing of the torn element, until exactly
    the missing bytes are there; a completion read that returns zero or a
    negative result is fatal; and what is committed is a whole number of
    elements. *)
Theorem file_reader_completes_torn_element
        (sizeof_T nr : Z) (fuel : nat) (s : file_reader.t)
        (bs : list byte) (rest : list arrival)
        (Hwidth : 1 <= sizeof_T)
        (Hsize : 0 < writable (file_reader.out s) * sizeof_T < 2 ^ 63)
        (Hpend : pending (file_reader.fdin s) = Bytes bs :: rest)
        (Hnr : nr = Z.min (Z.of_nat (length bs))
                          (writable (file_reader.out s) * sizeof_T))
        (Htorn : nr mod sizeof_T <> 0)
        (Hfuel : sizeof_T < Z.of_nat fuel) :
  let size := writable (file_reader.out s) * sizeof_T in
  let remain := sizeof_T - nr mod sizeof_T in
  let first := firstn (Z.to_nat nr) bs in
  match torn_tail (pending (snd (sys_read (file_reader.fdin s) size))) remain with
  | Some (extra, rs, arr') =>
      exists s',
        file_reader.run fuel sizeof_T s = Done s'
        /\ items (file_reader.out s')
           = items (file_reader.out s)
             ++ chunks (Z.to_nat sizeof_T) (first ++ extra)
        /\ Z.of_nat (length (chunks (Z.to_nat sizeof_T) (first ++ extra)))
           = nr / sizeof_T + 1
        /\ Forall (fun e => Z.of_nat (length e) = sizeof_T)
                  (chunks (Z.to_nat sizeof_T) (first ++ extra))
        /\ nr / sizeof_T + 1 <= writable (file_reader.out s)
        /\ Z.of_nat (length extra) = remain
        /\ calls (file_reader.fdin s')
           = calls (file_reader.fdin s)
             ++ SysRead size nr :: completion_calls remain rs
        /\ Forall (fun r => 0 < r) rs
        /\ zsum rs = remain
        /\ pending (file_reader.fdin s') = arr'
  | None => file_reader.run fuel sizeof_T s = Fatal "partial read"
  end.
Proof.
  intros size remain first.
  assert (0 <= nr) as Hnr0 by (subst nr; lia).
  destruct (torn_count sizeof_T nr Hwidth Hnr0 Htorn)
    as (Hremain & Hsum & Hquot & Hq0).
  fold remain in Hremain, Hsum, Hquot.
  assert (nr <> 0) as Hnz by (intros ->; now rewrite Z.mod_0_l in Htorn by lia).
  assert (nr < size) as Hlt.
  { assert (nr <= size) by (subst nr size; lia).
    assert (nr <> size); [| lia].
    intros ->. unfold size in Htorn. now rewrite Z.mod_mul in Htorn by lia. }
  assert (1 <= writable (file_reader.out s)) as Hroom.
  { unfold writable in *. destruct (room (file_reader.out s)); [cbn in Hsize |]; lia. }
  assert (sizeof_T <= size) as Hws by (unfold size; nia).
  unfold file_reader.run. fold size.
  rewrite (to_ulong_small size) by (unfold size; lia).
  destruct (Z.eqb_spec size 0) as [| _]; [unfold size in *; lia |].
  destruct fuel as [| fuel]; [lia |].
  cbn [file_reader.again].
  rewrite (sys_read_bytes _ size bs rest Hpend).
  fold size in Hnr. rewrite <- Hnr.
  cbn [snd pending].
  destruct (Z.ltb_spec nr 0); [lia |].
  destruct (Z.eqb_spec nr 0); [lia |].
  rewrite (to_ulong_small nr) by lia.
  destruct (Z.eqb_spec (nr mod sizeof_T) 0); [contradiction |].
  fold remain first.
  rewrite complete_spec by (unfold size in *; lia).
  cbn [pending origin seekable calls].
  destruct (torn_tail _ remain) as [[[extra rs] arr'] |] eqn:Htail;
    [| reflexivity].
  cbn [bind].
  destruct (torn_tail_obtains _ _ _ _ _ (Z.lt_le_incl _ _ (proj1 Hremain)) Htail)
    as (Hextra & Hpos & Hrs).
  assert (length (first ++ extra)
          = (Z.to_nat (nr / sizeof_T + 1) * Z.to_nat sizeof_T)%nat) as Hlen.
  { rewrite length_app. unfold first. rewrite length_firstn.
    assert (nr <= Z.of_nat (length bs)) by (subst nr; lia). nia. }
  destruct (chunks_whole (Z.to_nat sizeof_T) _ _ ltac:(lia) Hlen)
    as (Hk & Hall & _).
  eexists. split; [reflexivity |].
  cbn [file_reader.out file_reader.fdin written items calls pending].
  rewrite (to_ulong_small (nr + remain)) by lia. rewrite Hquot.
  repeat split.
  - f_equal. apply firstn_all2. lia.
  - lia.
  - eapply Forall_impl; [| exact Hall]. cbn. intros e He. lia.
  - assert (nr / sizeof_T < writable (file_reader.out s)); [| lia].
    apply Z.div_lt_upper_bound; [lia |]. unfold size in Hlt. lia.
  - exact Hextra.
  - rewrite <- app_assoc. reflexivity.
  - exact Hpos.
  - exact Hrs.
Qed.

(** Element width 4, room for 2 elements: a first read that delivers 6 of
    the 8 bytes asked for is followed by one read of the 2 missing bytes, and
    2 elements are committed; if the descriptor is at its end instead, the
    invocation is fatal. *)
Lemma file_reader_completes_torn_element_witness :
  (exists s',
      file_reader.run 5 4
        (file_reader.construct
           (mksource [Bytes [x01; x02; x03; x04; x05; x06];
                      Bytes [x07; x08; x09]] [] false [])
           (mkpipe [] 2))
      = Done s'
      /\ items (file_reader.out s')
         = [[x01; x02; x03; x04]; [x05; x06; x07; x08]]
      /\ calls (file_reader.fdin s') = [SysRead 8 6; SysRead 2 2])
  /\ file_reader.run 5 4
       (file_reader.construct
          (mksource [Bytes [x01; x02; x03; x04; x05; x06]] [] false [])
          (mkpipe [] 2))
     = Fatal "partial read".
Proof.
  split.
  - pose proof (file_reader_completes_torn_element
                  4 6 5
                  (file_reader.construct
                     (mksource [Bytes [x01; x02; x03; x04; x05; x06];
                                Bytes [x07; x08; x09]] [] false [])
                     (mkpipe [] 2))
                  [x01; x02; x03; x04; x05; x06] [Bytes [x07; x08; x09]]
                  ltac:(lia) ltac:(vm_compute; split; reflexivity) eq_refl
                  eq_refl ltac:(discriminate) ltac:(vm_compute; reflexivity))
      as Hrun.
    cbv zeta in Hrun.
    change (torn_tail _ _)
      with (Some ([x07; x08], [2], [Bytes [x09]])) in Hrun.
    destruct Hrun as (s' & Hrun & Hitems & _ & _ & _ & _ & Hcalls & _).
    exists s'. repeat split; assumption.
  - exact (file_reader_completes_torn_element
             4 6 5
             (file_reader.construct
                (mksource [Bytes [x01; x02; x03; x04; x05; x06]] [] false [])
                (mkpipe [] 2))
             [x01; x02; x03; x04; x05; x06] []
             ltac:(lia) ltac:(vm_compute; split; reflexivity) eq_refl
             eq_refl ltac:(discriminate) ltac:(vm_compute; reflexivity)).
Defined.

(** ** file_printer *)

Lemma skipn_cons_inv {A : Type} (l : list A) :
  forall (p : nat) (x : A) (r : list A),
    skipn p l = x :: r -> nth_error l p = Some x /\ skipn (S p) l = r.
Proof.
  induction l as [| a l IH]; intros [| p] x r Hs; cbn in *; try discriminate.
  - injection Hs as -> ->. split; reflexivity.
  - apply IH in Hs. exact Hs.
Qed.

(** The counter after one more element, and when it triggers. *)
Lemma counter_step (d k : Z) :
  1 <= d -> 0 <= k ->
  (d <=? k mod d + 1) = ((k + 1) mod d =? 0)
  /\ (k + 1) mod d = (if d <=? k mod d + 1 then 0 else k mod d + 1).
Proof.
  intros Hd Hk.
  pose proof (Z.mod_pos_bound k d ltac:(lia)) as Hm.
  rewrite <- (Zplus_mod_idemp_l k 1 d).
  destruct (Z.leb_spec d (k mod d + 1)) as [Hle | Hlt].
  - replace (k mod d + 1) with d by lia. rewrite Z.mod_same by lia.
    split; reflexivity.
  - rewrite Z.mod_small by lia.
    destruct (Z.eqb_spec (k mod d + 1) 0); [lia |]. split; reflexivity.
Qed.



Section FilePrinter.
Context {T : Type} `{printable T}.
Variable lib : libc.

(** One element, on a descriptor that accepts every write whole. *)
Lemma step_counts (x : T) (sc : T) (dec : Z) (inp : pipebuf T)
      (fmt : string) (ws : list write_call) (k : Z) :
  1 <= dec < 2 ^ 31 -> 0 <= k ->
  formats lib fmt sc x ->
  file_printer.step lib x (file_printer.mk sc dec inp fmt (mksink [] ws) (k mod dec))
  = Done (file_printer.mk sc dec inp fmt
            (mksink [] (ws ++ map (formatted_line lib fmt sc) (selected dec k [x])))
            ((k + 1) mod dec)).
Proof.
  intros Hdec Hk Hfmt.
  pose proof (Z.mod_pos_bound k dec ltac:(lia)) as Hm.
  destruct (counter_step dec k ltac:(lia) Hk) as (Htrig & Hnext).
  unfold file_printer.step.
  cbn [file_printer.phase file_printer.decimation file_printer.scale
       file_printer.format file_printer.fdout file_printer.in_].
  rewrite (to_int_small (k mod dec + 1)) by lia.
  cbn [selected]. rewrite <- Htrig, Hnext.
  destruct (Z.leb_spec dec (k mod dec + 1)) as [Hle | Hlt].
  - replace (k mod dec + 1 - dec) with 0 by lia.
    change (to_int 0) with 0.
    unfold formats in Hfmt. unfold formatted_line. cbn [map].
    destruct (snprintf lib 256 fmt (times x sc)) as [len buf].
    cbn [fst] in Hfmt.
    destruct (Z.ltb_spec len 0); [lia |].
    unfold sys_write. cbn [slots writes].
    rewrite (to_ulong_small len), (to_int_small len) by lia.
    rewrite Z.eqb_refl. reflexivity.
  - cbn [map]. rewrite app_nil_r. reflexivity.
Qed.

(** The loop over the elements not yet visited. *)
Lemma for_loop_prints (sc : T) (dec : Z) (inp : pipebuf T) (fmt : string) :
  1 <= dec < 2 ^ 31 ->
  forall (todo : list T) (fuel : nat) (pin : Z) (ws : list write_call) (k : Z),
    0 <= k -> 0 <= pin ->
    skipn (Z.to_nat pin) (items inp) = todo ->
    (length todo <= fuel)%nat ->
    Forall (formats lib fmt sc) todo ->
    file_printer.for_loop lib fuel pin (readable inp)
      (file_printer.mk sc dec inp fmt (mksink [] ws) (k mod dec))
    = Done (file_printer.mk sc dec inp fmt
              (mksink [] (ws ++ map (formatted_line lib fmt sc)
                                    (selected dec k todo)))
              ((k + Z.of_nat (length todo)) mod dec)).
Proof.
  intros Hdec. induction todo as [| x todo IH];
    intros fuel pin ws k Hk Hpin Hskip Hfuel Hfmt.
  - assert (readable inp <= pin) as Hend.
    { apply (f_equal (@length T)) in Hskip. rewrite length_skipn in Hskip.
      cbn in Hskip. unfold readable. lia. }
    cbn [selected map length]. rewrite app_nil_r, Z.add_0_r.
    destruct fuel; cbn [file_printer.for_loop];
      destruct (Z.ltb_spec pin (readable inp)); (lia || reflexivity).
  - destruct fuel as [| fuel]; [cbn [length] in Hfuel; lia |].
    apply skipn_cons_inv in Hskip as (Hx & Hskip).
    assert (pin < readable inp) as Hlt.
    { assert (nth_error (items inp) (Z.to_nat pin) <> None) as Hsome
        by (rewrite Hx; discriminate).
      apply nth_error_Some in Hsome. unfold readable. lia. }
    cbn [file_printer.for_loop].
    destruct (Z.ltb_spec pin (readable inp)); [| lia].
    cbn [file_printer.in_]. unfold rd, deref.
    destruct (Z.ltb_spec pin 0); [lia |]. rewrite Hx. cbn [bind].
    apply Forall_cons_iff in Hfmt as (Hfx & Hftodo).
    rewrite step_counts by assumption. cbn [bind].
    rewrite IH; [| lia | lia | | cbn [length] in Hfuel; lia | assumption].
    + cbn [selected length map].
      replace (k + 1 + Z.of_nat (length todo))
        with (k + Z.of_nat (S (length todo))) by lia.
      destruct ((k + 1) mod dec =? 0); cbn [map app];
        rewrite <- ?app_assoc, ?app_nil_r; reflexivity.
    + replace (Z.to_nat (pin + 1)) with (S (Z.to_nat pin)) by lia.
      exact Hskip.
Qed.
End FilePrinter.


Section FilePrinterAnyState.
Context {T : Type} `{printable T}.
Variable lib : libc.



End FilePrinterAnyState.





(** With a C99 [snprintf], an element whose text does not fit the staging
    buffer is not fatal: [write] is asked for the whole length. *)
Lemma step_overflow_continues {T : Type} `{printable T}
      (x : T) (s : file_printer.t (T:=T)) (text : list byte) :
  vprintf (file_printer.format s) [times x (file_printer.scale s)] = Some text ->
  256 <= Z.of_nat (length text) < 2 ^ 31 ->
  file_printer.decimation s <= to_int (file_printer.phase s + 1) ->
  slots (file_printer.fdout s) = [] ->
  exists s' buf,
    file_printer.step c99 x s = Done s'
    /\ writes (file_printer.fdout s')
       = writes (file_printer.fdout s)
         ++ [mkwrite buf (Z.of_nat (length text)) (Z.of_nat (length text))]
    /\ length buf = 256%nat.
Proof.
  intros Htext Hlen Htrig Hsink. unfold file_printer.step.
  destruct (Z.leb_spec (file_printer.decimation s)
                       (to_int (file_printer.phase s + 1))); [| lia].
  unfold snprintf. rewrite Htext.
  destruct (Z.ltb_spec (Z.of_nat (length text)) 256); [lia |].
  destruct (Z.ltb_spec (Z.of_nat (length text)) 0); [lia |].
  unfold sys_write. rewrite Hsink.
  rewrite to_ulong_small, to_int_small by lia. rewrite Z.eqb_refl.
  cbn [negb]. eexists. eexists. split; [reflexivity |].
  cbn [file_printer.fdout writes]. split; [reflexivity |].
  rewrite length_app, length_firstn. cbn [length]. lia.
Qed.

(** C8: [file_printer<int>] with the format [%300d] and a C99 [snprintf]:
    the line needs 301 bytes, the staging buffer has 256; [snprintf] returns
    301, which is not negative, [write] is asked for 301 bytes from the
    256-byte buffer, returns 301, and the invocation goes on to its end.
    Only the [snprintf] of glibc up to 2.0.6, which returns -1 here, makes
    it fatal. *)
Theorem file_printer_overflow_is_not_fatal :
  let s := file_printer.construct (append "%300d" newline) (mkpipe [7] 0)
                                  (mksink [] []) 1 in
  fst (snprintf c99 256 (file_printer.format s) 7) = 301
  /\ Z.of_nat (length (snd (snprintf c99 256 (file_printer.format s) 7))) = 256
  /\ file_printer.run c99 s
     = Done (file_printer.mk 1 1 (mkpipe [] 0) (append "%300d" newline)
               (mksink [] [mkwrite (snd (snprintf c99 256 (file_printer.format s) 7))
                                   301 301])
               0)
  /\ file_printer.run glibc20 s = Fatal "obsolete glibc".
Proof. vm_compute. repeat split. Qed.

(** ** Invocations with nothing to read or no room to write *)

Lemma read_zero {T : Type} (p : pipebuf T) : read 0 p = p.
Proof. destruct p. reflexivity. Qed.

Lemma written_zero {T : Type} (staged : list T) (p : pipebuf T) :
  written staged 0 p = p.
Proof.
  destruct p as [l r]. unfold written. cbn. now rewrite app_nil_r, Nat.sub_0_r.
Qed.

Lemma file_reader_idle (fuel : nat) (sizeof_T : Z) (s : file_reader.t) :
  writable (file_reader.out s) = 0 ->
  file_reader.run fuel sizeof_T s = Done s.
Proof. intros Hfull. unfold file_reader.run. rewrite Hfull. reflexivity. Qed.

Lemma file_writer_idle (sizeof_T : Z) (s : file_writer.t) :
  readable (file_writer.in_ s) = 0 ->
  file_writer.run sizeof_T s = Done s.
Proof. intros Hempty. unfold file_writer.run. rewrite Hempty. reflexivity. Qed.

Lemma file_printer_idle {T : Type} `{printable T} (lib : libc)
      (s : file_printer.t (T:=T)) :
  readable (file_printer.in_ s) = 0 ->
  file_printer.run lib s = Done s.
Proof.
  intros Hempty. unfold file_printer.run. rewrite Hempty.
  cbn. rewrite read_zero. destruct s; reflexivity.
Qed.

Lemma file_carrayprinter_idle {T : Type} `{printable T} `{printable Z}
      (s : file_carrayprinter.t (T:=T)) :
  readable (file_carrayprinter.in_ s) = 0 ->
  file_carrayprinter.run s = Done s.
Proof.
  intros Hempty. unfold file_carrayprinter.run. rewrite Hempty.
  change (to_int 0) with 0. change (to_ulong 0) with 0. rewrite read_zero.
  destruct s as [sc inp hd fmt tl [f |]]; reflexivity.
Qed.

Lemma itemcounter_idle {Tin Tout : Type} (of_count : Z -> Tout)
      (s : itemcounter.t (Tin:=Tin) (Tout:=Tout)) :
  readable (itemcounter.in_ s) = 0 \/ writable (itemcounter.out s) = 0 ->
  itemcounter.run of_count s = Done s.
Proof.
  intros [Hempty | Hfull]; unfold itemcounter.run.
  - rewrite Hempty. destruct (writable (itemcounter.out s) <? 1); reflexivity.
  - rewrite Hfull. reflexivity.
Qed.

Lemma decimator_idle {T : Type} (s : decimator.t (T:=T)) :
  1 <= decimator.d s ->
  readable (decimator.in_ s) = 0 \/ writable (decimator.out s) = 0 ->
  decimator.run s = Done s.
Proof.
  intros Hd Hidle. unfold decimator.run.
  destruct (Z.eqb_spec (decimator.d s) 0); [lia |].
  assert (min (readable (decimator.in_ s) / decimator.d s)
              (writable (decimator.out s)) = 0) as ->.
  { rewrite min_spec. destruct Hidle as [-> | ->].
    - rewrite Z.div_0_l by lia. unfold writable. lia.
    - assert (0 <= readable (decimator.in_ s) / decimator.d s)
        by (apply Z.div_pos; unfold readable; lia).
      lia. }
  cbn. rewrite read_zero, written_zero. destruct s; reflexivity.
Qed.

Lemma rate_estimator_idle {T F : Type} `{accumulator T F}
      (s : rate_estimator.t (T:=T) (F:=F)) :
  writable (rate_estimator.rate s) = 0
  \/ ((readable (rate_estimator.num s) = 0
       \/ readable (rate_estimator.den s) = 0)
      /\ acc_ge (rate_estimator.acc_den s) (rate_estimator.sample_size s) = false) ->
  rate_estimator.run s = Done s.
Proof.
  intros [Hfull | [Hempty Hbelow]].
  - unfold rate_estimator.run. rewrite Hfull. reflexivity.
  - destruct (Z.ltb_spec (writable (rate_estimator.rate s)) 1) as [Hlt | Hge].
    + unfold rate_estimator.run.
      destruct (Z.ltb_spec (writable (rate_estimator.rate s)) 1); [| lia].
      reflexivity.
    + assert (Z.min (readable (rate_estimator.num s))
                    (readable (rate_estimator.den s)) = 0) as Hcount
          by (unfold readable in *; lia).
      rewrite rate_estimator_run_done by (rewrite ?Hcount; lia).
      rewrite Hcount. cbn [Z.to_nat firstn summed fold_left].
      rewrite Hbelow, !read_zero. destruct s; reflexivity.
Qed.

Lemma serializer_idle (fuel : nat) (sizeof_Tout : Z) (s : serializer.t) :
  1 <= serializer.nin s < 2 ^ 31 ->
  1 <= serializer.nout s < 2 ^ 31 ->
  readable (serializer.in_ s) = 0 \/ writable (serializer.out s) = 0 ->
  serializer.run fuel sizeof_Tout s = Done s.
Proof.
  intros Hnin Hnout Hidle. unfold serializer.run.
  assert ((to_ulong (serializer.nin s) <=? readable (serializer.in_ s))
          && (to_ulong (serializer.nout s) <=? writable (serializer.out s))
          = false) as Hcond.
  { rewrite !to_ulong_small by lia. apply andb_false_iff.
    destruct Hidle as [-> | ->]; [left | right]; apply Z.leb_gt; lia. }
  destruct fuel; cbn [serializer.run_loop]; rewrite Hcond; reflexivity.
Qed.

Lemma buffer_reader_idle {T : Type} (s : buffer_reader.t (T:=T)) :
  0 <= buffer_reader.pos s <= Z.of_nat (length (buffer_reader.data s)) ->
  buffer_reader.pos s < 2 ^ 31 ->
  writable (buffer_reader.out s) = 0 ->
  buffer_reader.run s = Done s.
Proof.
  intros Hpos Hint Hfull. unfold buffer_reader.run. rewrite Hfull.
  assert (min 0 (to_ulong (to_int (buffer_reader.count s - buffer_reader.pos s)))
          = 0) as ->.
  { rewrite min_spec. unfold to_ulong.
    pose proof (Z.mod_pos_bound
                  (to_int (buffer_reader.count s - buffer_reader.pos s))
                  (2 ^ 64) ltac:(lia)). lia. }
  change (to_int 0) with 0. cbn [Z.ltb Z.compare].
  rewrite Z.add_0_r.
  destruct (Z.ltb_spec (Z.of_nat (length (buffer_reader.data s)))
                       (buffer_reader.pos s)); [lia |].
  rewrite written_zero, to_int_small by lia. destruct s; reflexivity.
Qed.

Lemma buffer_writer_idle {T : Type} (s : buffer_writer.t (T:=T)) :
  0 <= buffer_writer.pos s <= Z.of_nat (length (buffer_writer.data s)) ->
  buffer_writer.pos s < 2 ^ 31 ->
  readable (buffer_writer.in_ s) = 0 ->
  buffer_writer.run s = Done s.
Proof.
  intros Hpos Hint Hempty. unfold buffer_writer.run. rewrite Hempty.
  assert (min 0 (to_ulong (to_int (buffer_writer.count s - buffer_writer.pos s)))
          = 0) as ->.
  { rewrite min_spec. unfold to_ulong.
    pose proof (Z.mod_pos_bound
                  (to_int (buffer_writer.count s - buffer_writer.pos s))
                  (2 ^ 64) ltac:(lia)). lia. }
  change (to_int 0) with 0. cbn [Z.ltb Z.compare].
  rewrite Z.add_0_r.
  destruct (Z.ltb_spec (Z.of_nat (length (buffer_writer.data s)))
                       (buffer_writer.pos s)); [lia |].
  cbn [Z.to_nat firstn app]. rewrite firstn_skipn, read_zero, to_int_small by lia.
  destruct s; reflexivity.
Qed.

(** C9, as stated, fails for the rate estimator: a [rate_estimator<int>]
    that has summed 3 and 7 under [sample_size = 10], and whose
    [sample_size] is then set to 5, is invoked with both inputs empty and
    room on its output: it emits 3/7 and resets its sums. *)
Lemma rate_estimator_emits_with_empty_inputs :
  let s0 := rate_estimator.mk 10 (mkpipe [3] 0) (mkpipe [7] 0) (mkpipe [] 4) 0 0 in
  let s1 := rate_estimator.mk 10 (mkpipe [] 0) (mkpipe [] 0) (mkpipe [] 4) 3 7 in
  let s2 := rate_estimator.mk 5 (mkpipe [] 0) (mkpipe [] 0) (mkpipe [] 4) 3 7 in
  rate_estimator.run s0 = Done s1
  /\ readable (rate_estimator.num s2) = 0
  /\ readable (rate_estimator.den s2) = 0
  /\ rate_estimator.run s2
     = Done (rate_estimator.mk 5 (mkpipe [] 0) (mkpipe [] 0)
                               (mkpipe [FDiv 3 7] 3) 0 0)
  /\ rate_estimator.run s2 <> Done s2.
Proof. cbv zeta. repeat split. discriminate. Qed.

(** C9 (amended): a block invoked with zero readable elements on an input
    stream, or zero writable capacity on an output stream, consumes nothing,
    emits nothing and keeps its state; for the rate estimator with room on
    its output this holds when the denominator sum is below the sample-size
    threshold. (The decimator has a factor of at least 1, a serializer group
    counts of at least 1, and the cursor of a buffer adapter lies within its
    region.) *)
Theorem starved_blocks_do_no_work :
  (forall fuel sizeof_T (s : file_reader.t),
      writable (file_reader.out s) = 0 ->
      file_reader.run fuel sizeof_T s = Done s)
  /\ (forall sizeof_T (s : file_writer.t),
         readable (file_writer.in_ s) = 0 ->
         file_writer.run sizeof_T s = Done s)
  /\ (forall (T : Type) (P : printable T) lib (s : file_printer.t (T:=T)),
         readable (file_printer.in_ s) = 0 ->
         file_printer.run lib s = Done s)
  /\ (forall (T : Type) (P : printable T) (PZ : printable Z)
             (s : file_carrayprinter.t (T:=T)),
         readable (file_carrayprinter.in_ s) = 0 ->
         file_carrayprinter.run s = Done s)
  /\ (forall (Tin Tout : Type) (of_count : Z -> Tout)
             (s : itemcounter.t (Tin:=Tin) (Tout:=Tout)),
         readable (itemcounter.in_ s) = 0 \/ writable (itemcounter.out s) = 0 ->
         itemcounter.run of_count s = Done s)
  /\ (forall (T : Type) (s : decimator.t (T:=T)),
         1 <= decimator.d s ->
         readable (decimator.in_ s) = 0 \/ writable (decimator.out s) = 0 ->
         decimator.run s = Done s)
  /\ (forall (T F : Type) (A : accumulator T F)
             (s : rate_estimator.t (T:=T) (F:=F)),
         writable (rate_estimator.rate s) = 0
         \/ ((readable (rate_estimator.num s) = 0
              \/ readable (rate_estimator.den s) = 0)
             /\ acc_ge (rate_estimator.acc_den s) (rate_estimator.sample_size s)
                = false) ->
         rate_estimator.run s = Done s)
  /\ (forall fuel sizeof_Tout (s : serializer.t),
         1 <= serializer.nin s < 2 ^ 31 ->
         1 <= serializer.nout s < 2 ^ 31 ->
         readable (serializer.in_ s) = 0 \/ writable (serializer.out s) = 0 ->
         serializer.run fuel sizeof_Tout s = Done s)
  /\ (forall (T : Type) (s : buffer_reader.t (T:=T)),
         0 <= buffer_reader.pos s <= Z.of_nat (length (buffer_reader.data s)) ->
         buffer_reader.pos s < 2 ^ 31 ->
         writable (buffer_reader.out s) = 0 ->
         buffer_reader.run s = Done s)
  /\ (forall (T : Type) (s : buffer_writer.t (T:=T)),
         0 <= buffer_writer.pos s <= Z.of_nat (length (buffer_writer.data s)) ->
         buffer_writer.pos s < 2 ^ 31 ->
         readable (buffer_writer.in_ s) = 0 ->
         buffer_writer.run s = Done s).
Proof.
  repeat match goal with |- _ /\ _ => split end.
  - exact file_reader_idle.
  - exact file_writer_idle.
  - intros T P. exact (file_printer_idle (T:=T)).
  - intros T P PZ. exact (file_carrayprinter_idle (T:=T)).
  - intros Tin Tout. exact (itemcounter_idle (Tin:=Tin) (Tout:=Tout)).
  - intros T. exact (decimator_idle (T:=T)).
  - intros T F A. exact (rate_estimator_idle (T:=T) (F:=F)).
  - exact serializer_idle.
  - intros T. exact (buffer_reader_idle (T:=T)).
  - intros T. exact (buffer_writer_idle (T:=T)).
Qed.

Lemma starved_blocks_do_no_work_witness :
  (let s := rate_estimator.mk 10 (mkpipe [] 0) (mkpipe [4; 5] 0)
                              (mkpipe [] 4) 3 7 in
   rate_estimator.run s = Done s)
  /\ (let s := itemcounter.mk (mkpipe [1; 2; 3] 0) (mkpipe [9] 0) in
      itemcounter.run (fun count => count) s = Done s)
  /\ (let s := decimator.construct 2 (mkpipe [] 0) (mkpipe [1] 3) in
      decimator.run s = Done s)
  /\ (let s := buffer_reader.construct [1; 2; 3] 3 (mkpipe [] 0) in
      buffer_reader.run s = Done s).
Proof.
  destruct starved_blocks_do_no_work
    as (_ & _ & _ & _ & Hcount & Hdecim & Hrate & _ & Hbuf & _).
  repeat match goal with |- _ /\ _ => split end; cbv zeta.
  - apply Hrate. right. split; [left |]; reflexivity.
  - apply Hcount. right. reflexivity.
  - apply Hdecim; [vm_compute; discriminate | left; reflexivity].
  - apply Hbuf; [vm_compute; split; discriminate | reflexivity | reflexivity].
Defined.

(** ** file_reader: every path of an invocation *)

Lemma torn_tail_conserves (arr : list arrival) :
  forall remain extra rs arr',
    torn_tail arr remain = Some (extra, rs, arr') ->
    byte_stream arr = extra ++ byte_stream arr'.
Proof.
  induction arr as [| a arr IH]; intros remain extra rs arr' Htail.
  - cbn in Htail. destruct (remain <=? 0); [| discriminate].
    injection Htail as <- <- <-. reflexivity.
  - cbn [torn_tail] in Htail.
    destruct (remain <=? 0).
    { injection Htail as <- <- <-. reflexivity. }
    destruct a as [bs |]; [| discriminate].
    destruct (Z.of_nat (length bs) =? 0); [discriminate |].
    destruct (Z.of_nat (length bs) <=? remain).
    + destruct (torn_tail arr (remain - Z.of_nat (length bs)))
        as [[[e rs0] a0] |] eqn:Hrec; [| discriminate].
      injection Htail as <- <- <-.
      unfold byte_stream in *. cbn [map concat].
      rewrite (IH _ _ _ _ Hrec), app_assoc. reflexivity.
    + injection Htail as <- <- <-.
      unfold byte_stream. cbn [map concat].
      rewrite app_assoc, firstn_skipn. reflexivity.
Qed.

(** Rounding a byte count up to the next element boundary. *)
Lemma boundary_count (w nr room : Z) :
  1 <= w -> 0 < nr <= room * w ->
  let remain := if nr mod w =? 0 then 0 else w - nr mod w in
  0 <= remain < w
  /\ (nr + remain) mod w = 0
  /\ 0 < (nr + remain) / w <= room
  /\ nr + remain = (nr + remain) / w * w.
Proof.
  intros Hw Hnr remain.
  pose proof (Z.mod_pos_bound nr w ltac:(lia)) as Hmod.
  pose proof (Z.div_mod nr w ltac:(lia)) as Hdm.
  assert (exists q, nr + remain = q * w /\ 0 < q <= room) as (q & Hq & Hqr).
  { subst remain. destruct (Z.eqb_spec (nr mod w) 0) as [H0 | Hne].
    - exists (nr / w). split; [lia |]. split; [nia |].
      apply Z.div_le_upper_bound; lia.
    - exists (nr / w + 1). split; [lia |].
      assert (0 <= nr / w) by (apply Z.div_pos; lia).
      split; [lia |].
      assert (nr / w < room); [| lia].
      apply Z.div_lt_upper_bound; [lia |].
      assert (nr <> room * w); [| lia].
      intros ->. now rewrite Z.mod_mul in Hne by lia. }
  rewrite Hq, Z.mod_mul, Z.div_mul by lia.
  repeat split; try lia.
  - subst remain. destruct (Z.eqb_spec (nr mod w) 0); lia.
  - subst remain. destruct (Z.eqb_spec (nr mod w) 0); lia.
Qed.

(** An invocation with looping off: it returns or is fatal; what it commits
    is whole elements of the element width, no more of them than the stream
    had room for, and their bytes are the bytes the descriptor delivered, in
    order, none lost and none repeated. *)
Theorem file_reader_commits_delivered_bytes
        (sizeof_T : Z) (fuel : nat) (s : file_reader.t)
        (Hwidth : 1 <= sizeof_T)
        (Hsize : writable (file_reader.out s) * sizeof_T < 2 ^ 63)
        (Hloop : file_reader.loop s = false)
        (Hfuel : sizeof_T < Z.of_nat fuel) :
  match file_reader.run fuel sizeof_T s with
  | Done s' =>
      exists new,
        items (file_reader.out s') = items (file_reader.out s) ++ new
        /\ Forall (fun e => Z.of_nat (length e) = sizeof_T) new
        /\ Z.of_nat (length new) <= writable (file_reader.out s)
        /\ writable (file_reader.out s')
           = writable (file_reader.out s) - Z.of_nat (length new)
        /\ byte_stream (pending (file_reader.fdin s))
           = concat new ++ byte_stream (pending (file_reader.fdin s'))
  | Fatal msg => msg = "read"%string \/ msg = "partial read"%string
  | _ => False
  end.
Proof.
  set (cap := writable (file_reader.out s)) in *.
  assert (0 <= cap) as Hroom by (unfold cap, writable; lia).
  unfold file_reader.run. fold cap.
  rewrite (to_ulong_small (cap * sizeof_T)) by nia.
  destruct (Z.eqb_spec (cap * sizeof_T) 0) as [Hz | Hnz].
  { exists []. rewrite !app_nil_r. cbn. repeat split; try (cbn [length]; unfold cap; lia). constructor. }
  assert (1 <= cap) as Hr1.
  { destruct (Z.eq_dec cap 0) as [E | E]; [rewrite E in Hnz; lia | lia]. }
  assert (sizeof_T <= cap * sizeof_T) as Hws by nia.
  destruct fuel as [| fuel]; [lia |].
  cbn [file_reader.again]. rewrite Hloop.
  destruct (pending (file_reader.fdin s)) as [| [bs |] rest] eqn:Hpend.
  - unfold sys_read. rewrite Hpend. cbn.
    exists []. rewrite !app_nil_r. repeat split; try (cbn [length]; unfold cap; lia). constructor.
  - rewrite (sys_read_bytes _ (cap * sizeof_T) bs rest Hpend).
    set (nr := Z.min (Z.of_nat (length bs)) (cap * sizeof_T)).
    assert (0 <= nr <= cap * sizeof_T) as Hnr by (unfold nr; nia).
    destruct (Z.ltb_spec nr 0); [lia |].
    set (fd1 := mksource _ _ _ _).
    assert (byte_stream (Bytes bs :: rest)
            = firstn (Z.to_nat nr) bs ++ byte_stream (pending fd1)) as Hstream.
    { unfold fd1. cbn [pending]. unfold nr, byte_stream.
      destruct (Z.leb_spec (Z.of_nat (length bs)) (cap * sizeof_T)).
      - rewrite Z.min_l, Nat2Z.id, firstn_all by lia. reflexivity.
      - rewrite Z.min_r by lia. cbn [map concat].
        rewrite app_assoc, firstn_skipn. reflexivity. }
    destruct (Z.eqb_spec nr 0) as [Hnr0 | Hnrpos].
    + cbn [negb]. exists []. cbn [file_reader.out file_reader.fdin].
      rewrite !app_nil_r. rewrite Hstream, Hnr0. cbn.
      repeat split; try (cbn [length]; unfold cap; lia). constructor.
    + rewrite (to_ulong_small nr) by lia.
      destruct (boundary_count sizeof_T nr cap Hwidth ltac:(lia))
        as (Hremain & Hmult & Hquot & Htotal).
      set (remain := if nr mod sizeof_T =? 0 then 0
                     else sizeof_T - nr mod sizeof_T) in *.
      rewrite complete_spec by lia.
      destruct (torn_tail (pending fd1) remain)
        as [[[extra rs] arr'] |] eqn:Htail; [| right; reflexivity].
      cbn [bind].
      destruct (torn_tail_obtains _ _ _ _ _ (proj1 Hremain) Htail)
        as (Hextra & _ & _).
      apply torn_tail_conserves in Htail.
      set (data := firstn (Z.to_nat nr) bs ++ extra).
      assert (length data
              = (Z.to_nat ((nr + remain) / sizeof_T) * Z.to_nat sizeof_T)%nat)
        as Hlen.
      { unfold data. rewrite length_app, length_firstn.
        assert (nr <= Z.of_nat (length bs)) by (unfold nr; lia). nia. }
      destruct (chunks_whole (Z.to_nat sizeof_T) _ _ ltac:(lia) Hlen)
        as (Hk & Hall & Hcat).
      rewrite (to_ulong_small (nr + remain)) by lia.
      exists (chunks (Z.to_nat sizeof_T) data).
      cbn [file_reader.out file_reader.fdin written items pending room].
      rewrite Hk, Hcat.
      repeat split.
      * f_equal. apply firstn_all2. lia.
      * eapply Forall_impl; [| exact Hall]. cbn. intros e He. lia.
      * lia.
      * unfold writable, written. cbn [room]. unfold cap, writable in *. lia.
      * rewrite Hstream, Htail. unfold data. now rewrite app_assoc.
  - unfold sys_read. rewrite Hpend. cbn. left. reflexivity.
Qed.

Lemma file_reader_commits_delivered_bytes_witness :
  exists s',
    file_reader.run 5 4
      (file_reader.construct
         (mksource [Bytes [x01; x02; x03; x04; x05; x06];
                    Bytes [x07; x08; x09; x0a; x0b]] [] false [])
         (mkpipe [] 3))
    = Done s'
    /\ items (file_reader.out s')
       = [[x01; x02; x03; x04]; [x05; x06; x07; x08]]
    /\ writable (file_reader.out s') = 1
    /\ byte_stream (pending (file_reader.fdin s')) = [x09; x0a; x0b].
Proof.
  pose proof (file_reader_commits_delivered_bytes
                4 5
                (file_reader.construct
                   (mksource [Bytes [x01; x02; x03; x04; x05; x06];
                              Bytes [x07; x08; x09; x0a; x0b]] [] false [])
                   (mkpipe [] 3))
                ltac:(lia) ltac:(vm_compute; reflexivity) eq_refl
                ltac:(vm_compute; reflexivity)) as Hrun.
  remember (file_reader.run _ _ _) as r eqn:Hr in Hrun |- *.
  vm_compute in Hr. subst r.
  destruct Hrun as (new & Hitems & _).
  eexists. split; [reflexivity |]. repeat split.
Defined.

(** End of data with looping off: the invocation returns having produced
    nothing, and so does every later one. *)
Theorem file_reader_end_of_data_is_final
        (sizeof_T : Z) (fuel n : nat) (s : file_reader.t)
        (Hloop : file_reader.loop s = false)
        (Hend : pending (file_reader.fdin s) = [])
        (Hfuel : (0 < fuel)%nat) :
  exists s',
    iterate (file_reader.run fuel sizeof_T) n s = Done s'
    /\ file_reader.out s' = file_reader.out s
    /\ pending (file_reader.fdin s') = [].
Proof.
  revert s Hloop Hend. induction n as [| n IH]; intros s Hloop Hend.
  - exists s. repeat split. assumption.
  - cbn [iterate]. unfold file_reader.run.
    destruct (to_ulong (writable (file_reader.out s) * sizeof_T) =? 0).
    + cbn [bind]. apply IH; assumption.
    + destruct fuel as [| fuel]; [lia |].
      cbn [file_reader.again]. unfold sys_read. rewrite Hend, Hloop.
      cbn [Z.ltb Z.eqb Z.compare negb bind].
      destruct (IH (file_reader.mk false
                      (mksource [] (origin (file_reader.fdin s))
                                (seekable (file_reader.fdin s))
                                (calls (file_reader.fdin s)
                                 ++ [SysRead
                                       (to_ulong (writable (file_reader.out s)
                                                  * sizeof_T)) 0]))
                      (file_reader.out s)))
        as (s' & Hrun & Hout & Hpend); [reflexivity | reflexivity |].
      exists s'. repeat split; assumption.
Qed.

Lemma file_reader_end_of_data_is_final_witness :
  exists s',
    iterate (file_reader.run 1 4) 3
      (file_reader.construct (mksource [] [] false []) (mkpipe [[x01; x02; x03; x04]] 2))
    = Done s'
    /\ file_reader.out s' = mkpipe [[x01; x02; x03; x04]] 2
    /\ pending (file_reader.fdin s') = [].
Proof.
  apply (file_reader_end_of_data_is_final
           4 1 3
           (file_reader.construct (mksource [] [] false [])
                                  (mkpipe [[x01; x02; x03; x04]] 2)));
    [reflexivity | reflexivity | lia].
Defined.

Lemma again_spins (sizeof_T size : Z) (fuel : nat) :
  forall s : file_reader.t,
    file_reader.loop s = true ->
    pending (file_reader.fdin s) = [] ->
    origin (file_reader.fdin s) = [] ->
    seekable (file_reader.fdin s) = true ->
    file_reader.again fuel sizeof_T size s = OutOfFuel.
Proof.
  induction fuel as [| fuel IH]; intros s Hloop Hend Hempty Hseek.
  - reflexivity.
  - cbn [file_reader.again]. unfold sys_read, sys_lseek.
    rewrite Hend, Hloop. cbn [Z.ltb Z.eqb Z.compare negb seekable origin].
    rewrite Hseek. cbn [Z.eqb]. rewrite Hempty.
    apply IH; reflexivity.
Qed.

(** Looping on an empty seekable file: every read returns 0, every seek
    succeeds, and the invocation never returns, whatever the fuel. *)
Theorem file_reader_loops_forever_on_empty_file
        (sizeof_T : Z) (fuel : nat) (s : file_reader.t)
        (Hsize : 0 < writable (file_reader.out s) * sizeof_T < 2 ^ 64)
        (Hloop : file_reader.loop s = true)
        (Hend : pending (file_reader.fdin s) = [])
        (Hempty : origin (file_reader.fdin s) = [])
        (Hseek : seekable (file_reader.fdin s) = true) :
  file_reader.run fuel sizeof_T s = OutOfFuel.
Proof.
  unfold file_reader.run. rewrite to_ulong_small by lia.
  destruct (Z.eqb_spec (writable (file_reader.out s) * sizeof_T) 0); [lia |].
  apply again_spins; assumption.
Qed.

Lemma file_reader_loops_forever_on_empty_file_witness :
  file_reader.run 1000 4
    (file_reader.mk true (mksource [] [] true []) (mkpipe [] 2))
  = OutOfFuel.
Proof.
  apply (file_reader_loops_forever_on_empty_file
           4 1000 (file_reader.mk true (mksource [] [] true []) (mkpipe [] 2)));
    [vm_compute; split; reflexivity | reflexivity ..].
Defined.

(** Looping at the end of a seekable file: the descriptor is set back to its
    start and the same invocation fills the stream from there, wholly when
    the first read after the seek supplies at least the bytes of the
    writable room; with looping on a descriptor that cannot seek the
    invocation is fatal. *)
Theorem file_reader_rewinds_at_end_of_data
        (sizeof_T : Z) (fuel : nat) (s : file_reader.t)
        (bs : list byte) (rest : list arrival)
        (Hwidth : 1 <= sizeof_T)
        (Hsize : 0 < writable (file_reader.out s) * sizeof_T < 2 ^ 63)
        (Hloop : file_reader.loop s = true)
        (Hend : pending (file_reader.fdin s) = [])
        (Horigin : origin (file_reader.fdin s) = Bytes bs :: rest)
        (Hlong : writable (file_reader.out s) * sizeof_T <= Z.of_nat (length bs))
        (Hfuel : (1 < fuel)%nat) :
  let size := writable (file_reader.out s) * sizeof_T in
  if seekable (file_reader.fdin s) then
    exists s',
      file_reader.run fuel sizeof_T s = Done s'
      /\ items (file_reader.out s')
         = items (file_reader.out s)
           ++ chunks (Z.to_nat sizeof_T) (firstn (Z.to_nat size) bs)
      /\ Z.of_nat (length (chunks (Z.to_nat sizeof_T) (firstn (Z.to_nat size) bs)))
         = writable (file_reader.out s)
      /\ calls (file_reader.fdin s')
         = calls (file_reader.fdin s)
           ++ [SysRead size 0; SysLseek 0; SysRead size size]
  else file_reader.run fuel sizeof_T s = Fatal "lseek".
Proof.
  intros size. unfold file_reader.run. fold size.
  rewrite (to_ulong_small size) by (unfold size; lia).
  destruct (Z.eqb_spec size 0); [unfold size in *; lia |].
  assert (sys_read (file_reader.fdin s) size
          = (0, [], mksource [] (origin (file_reader.fdin s))
                             (seekable (file_reader.fdin s))
                             (calls (file_reader.fdin s) ++ [SysRead size 0])))
    as Hread by (unfold sys_read; rewrite Hend; reflexivity).
  destruct fuel as [| fuel]; [lia |].
  cbn [file_reader.again]. rewrite Hread, Hloop.
  cbn [Z.ltb Z.eqb Z.compare negb]. unfold sys_lseek. cbn [seekable origin calls].
  destruct (seekable (file_reader.fdin s)); [| reflexivity].
  cbn [Z.eqb].
  destruct fuel as [| fuel]; [lia |].
  cbn [file_reader.again file_reader.fdin file_reader.loop file_reader.out].
  rewrite (sys_read_bytes _ size bs rest) by (cbn [pending]; exact Horigin).
  rewrite Z.min_r by (fold size in Hlong; lia).
  destruct (Z.ltb_spec size 0); [lia |].
  destruct (Z.eqb_spec size 0); [lia |].
  rewrite (to_ulong_small size) by (unfold size; lia).
  assert (size mod sizeof_T = 0) as -> by (unfold size; apply Z.mod_mul; lia).
  cbn [Z.eqb]. rewrite complete_spec by lia.
  rewrite torn_tail_zero. cbn [bind].
  rewrite Z.add_0_r, app_nil_r, (to_ulong_small size) by (unfold size; lia).
  assert (0 <= writable (file_reader.out s)) as Hcap by (unfold writable; lia).
  assert (size / sizeof_T = writable (file_reader.out s)) as Hq
      by (unfold size; apply Z.div_mul; lia).
  assert (length (firstn (Z.to_nat size) bs)
          = (Z.to_nat (writable (file_reader.out s)) * Z.to_nat sizeof_T)%nat)
    as Hlen.
  { rewrite length_firstn. fold size in Hlong. unfold size in *. nia. }
  destruct (chunks_whole (Z.to_nat sizeof_T) _ _ ltac:(lia) Hlen) as (Hk & _ & _).
  eexists. split; [reflexivity |].
  cbn [file_reader.out file_reader.fdin written items calls].
  rewrite Hq. cbn [completion_calls]. rewrite ?app_nil_r. repeat split.
  - f_equal. apply firstn_all2. lia.
  - lia.
  - rewrite <- !app_assoc. reflexivity.
Qed.

Lemma file_reader_rewinds_at_end_of_data_witness :
  (exists s',
      file_reader.run 2 2
        (file_reader.mk true
           (mksource [] [Bytes [x01; x02; x03; x04; x05]] true [])
           (mkpipe [] 2))
      = Done s'
      /\ items (file_reader.out s') = [[x01; x02]; [x03; x04]])
  /\ file_reader.run 2 2
       (file_reader.mk true
          (mksource [] [Bytes [x01; x02; x03; x04; x05]] false [])
          (mkpipe [] 2))
     = Fatal "lseek".
Proof.
  split.
  - destruct (file_reader_rewinds_at_end_of_data
                2 2
                (file_reader.mk true
                   (mksource [] [Bytes [x01; x02; x03; x04; x05]] true [])
                   (mkpipe [] 2))
                [x01; x02; x03; x04; x05] []
                ltac:(lia) ltac:(vm_compute; split; reflexivity) eq_refl eq_refl
                eq_refl ltac:(vm_compute; discriminate) ltac:(lia))
      as (s' & Hrun & Hitems & _).
    exists s'. split; assumption.
  - exact (file_reader_rewinds_at_end_of_data
             2 2
             (file_reader.mk true
                (mksource [] [Bytes [x01; x02; x03; x04; x05]] false [])
                (mkpipe [] 2))
             [x01; x02; x03; x04; x05] []
             ltac:(lia) ltac:(vm_compute; split; reflexivity) eq_refl eq_refl
             eq_refl ltac:(vm_compute; discriminate) ltac:(lia)).
Defined.


(** ** file_writer *)

(** What [write] returns is between -1 and the count asked for. *)
Lemma sys_write_result (fd : sink) (buf : list byte) (count : Z) :
  0 <= count ->
  -1 <= fst (sys_write fd buf count) <= count
  /\ writes (snd (sys_write fd buf count))
     = writes fd ++ [mkwrite buf count (fst (sys_write fd buf count))].
Proof.
  intros Hcount. unfold sys_write.
  destruct (slots fd) as [| [n |] rest]; cbn [fst snd writes];
    split; (lia || reflexivity).
Qed.

(** An invocation with something to write: it is fatal when [write] returns
    0 ("pipe"), a negative result ("write") or a byte count that is not a
    whole number of elements ("partial write"); otherwise exactly the
    elements whose bytes were written are consumed, and the others stay. *)
Theorem file_writer_consumes_what_was_written
        (sizeof_T : Z) (s : file_writer.t)
        (Hwidth : 1 <= sizeof_T)
        (Hsize : 0 < readable (file_writer.in_ s) * sizeof_T < 2 ^ 31) :
  let size := readable (file_writer.in_ s) * sizeof_T in
  let data := concat (items (file_writer.in_ s)) in
  let r := fst (sys_write (file_writer.fdout s) data size) in
  match file_writer.run sizeof_T s with
  | Done s' =>
      exists k,
        r = k * sizeof_T
        /\ 0 < k <= readable (file_writer.in_ s)
        /\ items (file_writer.in_ s')
           = skipn (Z.to_nat k) (items (file_writer.in_ s))
        /\ writes (file_writer.fdout s')
           = writes (file_writer.fdout s) ++ [mkwrite data size r]
  | Fatal msg =>
      (msg = "pipe"%string /\ r = 0)
      \/ (msg = "write"%string /\ r < 0)
      \/ (msg = "partial write"%string /\ 0 < r /\ r mod sizeof_T <> 0)
  | _ => False
  end.
Proof.
  intros size data r. unfold file_writer.run. fold size.
  rewrite (to_ulong_small size), (to_int_small size) by (unfold size; lia).
  rewrite (to_ulong_small size) by (unfold size; lia).
  destruct (Z.eqb_spec size 0); [unfold size in *; lia |].
  unfold rd. fold data.
  destruct (sys_write_result (file_writer.fdout s) data size ltac:(unfold size; lia))
    as (Hr & Hlog).
  subst r.
  destruct (sys_write (file_writer.fdout s) data size) as [r fd'] eqn:Hw.
  cbn [fst snd] in *.
  rewrite (to_int_small r) by (unfold size in *; lia).
  destruct (Z.eqb_spec r 0) as [H0 | Hn0]; [left; split; [reflexivity | assumption] |].
  destruct (Z.ltb_spec r 0) as [Hneg | Hpos];
    [right; left; split; [reflexivity | assumption] |].
  rewrite (to_ulong_small r) by (unfold size in *; lia).
  destruct (Z.eqb_spec (r mod sizeof_T) 0) as [Hmul | Hnot];
    [| right; right; repeat split; (reflexivity || lia)].
  cbn [negb].
  pose proof (Z.div_mod r sizeof_T ltac:(lia)) as Hdm.
  exists (r / sizeof_T). cbn [file_writer.in_ file_writer.fdout read items].
  repeat split.
  - lia.
  - assert (0 <= r / sizeof_T) by (apply Z.div_pos; lia). nia.
  - apply Z.div_le_upper_bound; [lia |]. unfold size in Hr. lia.
  - exact Hlog.
Qed.

Lemma file_writer_consumes_what_was_written_witness :
  (exists s',
      file_writer.run 2
        (file_writer.mk (mkpipe [[x01; x02]; [x03; x04]; [x05; x06]] 0)
                        (mksink [Accept 4] []))
      = Done s'
      /\ items (file_writer.in_ s') = [[x05; x06]]
      /\ writes (file_writer.fdout s')
         = [mkwrite [x01; x02; x03; x04; x05; x06] 6 4])
  /\ file_writer.run 2
       (file_writer.mk (mkpipe [[x01; x02]; [x03; x04]; [x05; x06]] 0)
                       (mksink [Accept 3] []))
     = Fatal "partial write".
Proof.
  split.
  - pose proof (file_writer_consumes_what_was_written
                  2 (file_writer.mk (mkpipe [[x01; x02]; [x03; x04]; [x05; x06]] 0)
                                    (mksink [Accept 4] []))
                  ltac:(lia) ltac:(vm_compute; split; reflexivity)) as Hrun.
    remember (file_writer.run _ _) as o eqn:Ho in Hrun |- *.
    vm_compute in Ho. subst o.
    destruct Hrun as (k & _).
    eexists. repeat split.
  - pose proof (file_writer_consumes_what_was_written
                  2 (file_writer.mk (mkpipe [[x01; x02]; [x03; x04]; [x05; x06]] 0)
                                    (mksink [Accept 3] []))
                  ltac:(lia) ltac:(vm_compute; split; reflexivity)) as Hrun.
    remember (file_writer.run _ _) as o eqn:Ho in Hrun |- *.
    vm_compute in Ho. subst o.
    destruct Hrun as [[_ _] | [[_ _] | [_ _]]]; reflexivity.
Defined.

(** ** decimator: negative factors and split invocations *)

(** A negative factor is not refused: it becomes the factor 2^32 + _d, and
    an invocation on fewer readable elements than that does no work. *)
Theorem decimator_negative_factor_wraps {T : Type}
        (_d : Z) (_in _out : pipebuf T)
        (Hneg : - 2 ^ 31 <= _d < 0)
        (Hshort : readable _in < 2 ^ 32 + _d) :
  decimator.d (decimator.construct _d _in _out) = 2 ^ 32 + _d
  /\ decimator.run (decimator.construct _d _in _out)
     = Done (decimator.construct _d _in _out).
Proof.
  assert (to_uint _d = 2 ^ 32 + _d) as Hd.
  { unfold to_uint. symmetry. apply (Z.mod_unique _d (2 ^ 32) (-1)); lia. }
  split; [exact Hd |].
  unfold decimator.run, decimator.construct. cbn [decimator.d decimator.in_ decimator.out].
  rewrite Hd.
  destruct (Z.eqb_spec (2 ^ 32 + _d) 0); [lia |].
  rewrite Z.div_small by (unfold readable in *; lia).
  assert (min 0 (writable _out) = 0) as ->
      by (rewrite min_spec; unfold writable; lia).
  rewrite Z.mul_0_l. change (to_ulong 0) with 0.
  cbn [Z.to_nat decimator.for_loop Z.ltb Z.compare bind].
  now rewrite read_zero, written_zero.
Qed.

Lemma decimator_negative_factor_wraps_witness :
  decimator.d (decimator.construct (-1) (mkpipe [1; 2; 3] 0) (mkpipe [] 5))
  = 4294967295
  /\ decimator.run (decimator.construct (-1) (mkpipe [1; 2; 3] 0) (mkpipe [] 5))
     = Done (decimator.construct (-1) (mkpipe [1; 2; 3] 0) (mkpipe [] 5)).
Proof.
  apply (decimator_negative_factor_wraps (-1) (mkpipe [1; 2; 3] 0) (mkpipe [] 5));
    [lia | vm_compute; reflexivity].
Defined.

(** Backpressure does not change what is forwarded: an invocation short of
    room, followed by one with the room that was missing, leaves the output
    and the input as one invocation with all the room does. *)
Theorem decimator_invocations_compose {T : Type}
        (d : Z) (_in : pipebuf T) (outp : list T) (room1 room2 : nat)
        (Hd : 1 <= d)
        (HN : readable _in < 2 ^ 64)
        (Hroom : readable _in / d <= Z.of_nat room1 + Z.of_nat room2) :
  exists s1 s2 s12,
    decimator.run (decimator.mk d _in (mkpipe outp room1)) = Done s1
    /\ decimator.run
         (decimator.mk d (decimator.in_ s1)
                       (mkpipe (items (decimator.out s1)) room2))
       = Done s2
    /\ decimator.run (decimator.mk d _in (mkpipe outp (room1 + room2)))
       = Done s12
    /\ items (decimator.out s2) = items (decimator.out s12)
    /\ items (decimator.in_ s2) = items (decimator.in_ s12).
Proof.
  set (N := readable _in) in *.
  assert (0 <= N / d) as Hq by (apply Z.div_pos; unfold N, readable; lia).
  pose proof (Z.mul_div_le N d ltac:(lia)) as Hfit.
  (* first invocation *)
  destruct (decimator_run_done (decimator.mk d _in (mkpipe outp room1)))
    as (fwd1 & Hrun1 & Hlen1 & Hnth1); [exact Hd | exact HN |].
  cbn [decimator.d decimator.in_ decimator.out] in Hrun1, Hlen1, Hnth1.
  fold N in Hrun1, Hlen1, Hnth1.
  set (c1 := Z.min (N / d) (writable (mkpipe outp room1))) in *.
  assert (0 <= c1 <= N / d) as Hc1 by (unfold c1, writable; cbn [room]; lia).
  (* second invocation *)
  set (in1 := read (c1 * d) _in) in *.
  assert (readable in1 = N - c1 * d) as HN1.
  { unfold in1, read, readable. cbn [items]. rewrite length_skipn.
    unfold N, readable in *. nia. }
  assert (readable in1 / d = N / d - c1) as Hq1.
  { rewrite HN1. replace (N - c1 * d) with (N + (- c1) * d) by lia.
    rewrite Z.div_add by lia. lia. }
  destruct (decimator_run_done
              (decimator.mk d in1
                 (mkpipe (items (written fwd1 c1 (mkpipe outp room1))) room2)))
    as (fwd2 & Hrun2 & Hlen2 & Hnth2);
    [exact Hd | cbn [decimator.in_]; rewrite HN1; nia |].
  cbn [decimator.d decimator.in_ decimator.out] in Hrun2, Hlen2, Hnth2.
  rewrite Hq1 in Hrun2, Hlen2, Hnth2.
  assert (Z.min (N / d - c1)
                (writable (mkpipe (items (written fwd1 c1 (mkpipe outp room1)))
                                  room2))
          = N / d - c1) as Hc2.
  { unfold writable at 1. cbn [room]. unfold c1, writable in *. cbn [room] in *. lia. }
  rewrite Hc2 in Hrun2, Hlen2, Hnth2.
  (* one invocation with all the room *)
  destruct (decimator_run_done (decimator.mk d _in (mkpipe outp (room1 + room2))))
    as (fwd & Hrun & Hlen & Hnth); [exact Hd | exact HN |].
  cbn [decimator.d decimator.in_ decimator.out] in Hrun, Hlen, Hnth.
  fold N in Hrun, Hlen, Hnth.
  assert (Z.min (N / d) (writable (mkpipe outp (room1 + room2))) = N / d) as Hc.
  { unfold writable. cbn [room]. lia. }
  rewrite Hc in Hrun, Hlen, Hnth.
  exists (decimator.mk d in1 (written fwd1 c1 (mkpipe outp room1))).
  eexists. eexists.
  split; [exact Hrun1 |]. cbn [decimator.in_ decimator.out].
  split; [exact Hrun2 |]. split; [exact Hrun |].
  cbn [decimator.in_ decimator.out written read items].
  split.
  - rewrite !firstn_all2 by lia. rewrite <- app_assoc. f_equal.
    apply nth_error_ext. intros i.
    destruct (Nat.lt_ge_cases i (length fwd1)) as [Hi | Hi].
    + rewrite nth_error_app1 by assumption.
      pose proof (Hnth1 (Z.of_nat i) ltac:(lia)) as H1.
      pose proof (Hnth (Z.of_nat i) ltac:(lia)) as H3.
      rewrite Nat2Z.id in H1, H3. now rewrite H1, H3.
    + rewrite nth_error_app2 by assumption.
      destruct (Z_lt_le_dec (Z.of_nat i) (N / d)) as [Hlt | Hge].
      * pose proof (Hnth2 (Z.of_nat (i - length fwd1)) ltac:(lia)) as H2.
        pose proof (Hnth (Z.of_nat i) ltac:(lia)) as H3.
        rewrite Nat2Z.id in H2, H3. rewrite H2, H3.
        unfold in1, read. cbn [items]. rewrite nth_error_skipn.
        f_equal. nia.
      * rewrite (proj2 (nth_error_None fwd2 _)) by lia.
        rewrite (proj2 (nth_error_None fwd _)) by lia. reflexivity.
  - unfold in1, read. cbn [items]. rewrite skipn_skipn. f_equal. nia.
Qed.

Lemma decimator_invocations_compose_witness :
  exists s1 s2 s12,
    decimator.run (decimator.mk 3 (mkpipe [0; 1; 2; 3; 4; 5; 6; 7; 8; 9] 0)
                                (mkpipe [] 1)) = Done s1
    /\ decimator.run
         (decimator.mk 3 (decimator.in_ s1)
                       (mkpipe (items (decimator.out s1)) 2))
       = Done s2
    /\ decimator.run (decimator.mk 3 (mkpipe [0; 1; 2; 3; 4; 5; 6; 7; 8; 9] 0)
                                   (mkpipe [] (1 + 2)))
       = Done s12
    /\ items (decimator.out s2) = items (decimator.out s12)
    /\ items (decimator.in_ s2) = items (decimator.in_ s12).
Proof.
  apply (decimator_invocations_compose
           3 (mkpipe [0; 1; 2; 3; 4; 5; 6; 7; 8; 9] 0) [] 1 2);
    [lia | vm_compute; reflexivity | vm_compute; discriminate].
Defined.

(** ** serializer: the step *)

(** The bytes of the first [n] elements of a region of [w]-byte elements. *)
Lemma concat_firstn_uniform (w : nat) (l : list element) :
  Forall (fun e => length e = w) l ->
  forall n : nat,
    firstn (n * w) (concat l) = concat (firstn n l)
    /\ length (concat l) = (length l * w)%nat.
Proof.
  induction 1 as [| e l He Hl IH]; intros n.
  - rewrite !firstn_nil. split; reflexivity.
  - cbn [concat length]. rewrite length_app, He, (proj2 (IH O)).
    split; [| lia].
    destruct n as [| n]; [reflexivity |].
    cbn [firstn concat Nat.mul]. rewrite <- He at 1.
    rewrite firstn_app_2, (proj1 (IH n)). reflexivity.
Qed.

Lemma firstn_add {A : Type} (a b : nat) (l : list A) :
  firstn (a + b) l = firstn a l ++ firstn b (skipn a l).
Proof.
  revert l. induction a as [| a IH]; intros l; [reflexivity |].
  destruct l as [| x l]; cbn [Nat.add firstn skipn app].
  - now rewrite firstn_nil.
  - now rewrite IH.
Qed.

Section SerializerRun.
Variables sizeof_Tin sizeof_Tout : Z.
Hypothesis Tin_size : 1 <= sizeof_Tin < 2 ^ 31.
Hypothesis Tout_size : 1 <= sizeof_Tout < 2 ^ 31.

(** One group: [nin] input elements become [nout] output elements with the
    same bytes. *)
Lemma copy_group_spec (s : serializer.t) :
  grouped sizeof_Tin sizeof_Tout s ->
  serializer.nin s <= readable (serializer.in_ s) ->
  serializer.nout s <= writable (serializer.out s) ->
  exists staged,
    serializer.copy_group sizeof_Tout s
    = Done (serializer.mk (serializer.nin s) (serializer.nout s)
              (read (serializer.nin s) (serializer.in_ s))
              (mkpipe (items (serializer.out s) ++ staged)
                      (room (serializer.out s)
                       - Z.to_nat (serializer.nout s))))
    /\ Z.of_nat (length staged) = serializer.nout s
    /\ Forall (fun e => Z.of_nat (length e) = sizeof_Tout) staged
    /\ concat staged
       = concat (firstn (Z.to_nat (serializer.nin s))
                        (items (serializer.in_ s))).
Proof.
  intros (Hnin & Hnout & Hbytes & Hall) Hin Hout.
  unfold serializer.copy_group.
  rewrite (to_ulong_small (serializer.nout s)) by lia.
  rewrite (to_ulong_small (serializer.nin s)) by lia.
  rewrite (to_ulong_small (serializer.nout s * sizeof_Tout))
    by (change (2 ^ 64) with (2 ^ 31 * 2 ^ 33); nia).
  assert (Forall (fun e => length e = Z.to_nat sizeof_Tin)
                 (items (serializer.in_ s))) as Hall'.
  { eapply Forall_impl; [| exact Hall]. cbn. intros e He. lia. }
  unfold rd.
  destruct (concat_firstn_uniform _ _ Hall' (Z.to_nat (serializer.nin s)))
    as (Hfirst & Hlen).
  destruct (Z.ltb_spec (Z.of_nat (length (concat (items (serializer.in_ s)))))
                       (serializer.nout s * sizeof_Tout)) as [Hshort | _].
  { rewrite Hlen in Hshort. unfold readable in Hin. nia. }
  replace (Z.to_nat (serializer.nout s * sizeof_Tout))
    with (Z.to_nat (serializer.nin s) * Z.to_nat sizeof_Tin)%nat by nia.
  rewrite Hfirst.
  set (data := concat (firstn (Z.to_nat (serializer.nin s))
                              (items (serializer.in_ s)))).
  assert (length data
          = (Z.to_nat (serializer.nout s) * Z.to_nat sizeof_Tout)%nat) as Hdata.
  { unfold data. rewrite <- Hfirst, length_firstn, Hlen.
    unfold readable in Hin. nia. }
  destruct (chunks_whole (Z.to_nat sizeof_Tout) _ _ ltac:(lia) Hdata)
    as (Hk & Hchunks & Hcat).
  exists (chunks (Z.to_nat sizeof_Tout) data).
  unfold written. rewrite firstn_all2 by lia.
  repeat split.
  - lia.
  - eapply Forall_impl; [| exact Hchunks]. cbn. intros e He. lia.
  - exact Hcat.
Qed.

(** [g] groups. *)
Lemma run_loop_groups (g : nat) :
  forall (fuel : nat) (s : serializer.t),
    grouped sizeof_Tin sizeof_Tout s ->
    groups s = Z.of_nat g ->
    (g <= fuel)%nat ->
    exists new,
      serializer.run_loop fuel sizeof_Tout s
      = Done (serializer.mk (serializer.nin s) (serializer.nout s)
                (read (Z.of_nat g * serializer.nin s) (serializer.in_ s))
                (mkpipe (items (serializer.out s) ++ new)
                        (room (serializer.out s)
                         - Z.to_nat (Z.of_nat g * serializer.nout s))))
      /\ Z.of_nat (length new) = Z.of_nat g * serializer.nout s
      /\ Forall (fun e => Z.of_nat (length e) = sizeof_Tout) new
      /\ concat new
         = concat (firstn (Z.to_nat (Z.of_nat g * serializer.nin s))
                          (items (serializer.in_ s))).
Proof.
  induction g as [| g IH]; intros fuel s Hs Hg Hfuel.
  - destruct Hs as (Hnin & Hnout & Hbytes & Hall).
    assert ((to_ulong (serializer.nin s) <=? readable (serializer.in_ s))
            && (to_ulong (serializer.nout s) <=? writable (serializer.out s))
            = false) as Hcond.
    { rewrite !to_ulong_small by lia. apply andb_false_iff.
      unfold groups in Hg.
      assert (0 <= readable (serializer.in_ s)) by (unfold readable; lia).
      assert (0 <= writable (serializer.out s)) by (unfold writable; lia).
      destruct (Z.min_spec (readable (serializer.in_ s) / serializer.nin s)
                           (writable (serializer.out s) / serializer.nout s))
        as [[_ Hmin] | [_ Hmin]]; rewrite Hmin in Hg; [left | right];
        apply Z.leb_gt; apply Z.div_small_iff in Hg; lia. }
    exists []. split.
    + destruct fuel; cbn [serializer.run_loop]; rewrite Hcond;
        destruct s as [ni no [li ri] [lo ro]]; cbn; unfold read; cbn;
        now rewrite app_nil_r, Nat.sub_0_r.
    + cbn [length concat Z.of_nat Z.mul Z.to_nat firstn].
      repeat split; try lia; try constructor.
  - pose proof Hs as (Hnin & Hnout & Hbytes & Hall).
    assert (0 <= readable (serializer.in_ s)) as Hr0 by (unfold readable; lia).
    assert (0 <= writable (serializer.out s)) as Hw0 by (unfold writable; lia).
    unfold groups in Hg.
    assert (Z.of_nat (S g) <= readable (serializer.in_ s) / serializer.nin s)
      as Hgin by lia.
    assert (Z.of_nat (S g) <= writable (serializer.out s) / serializer.nout s)
      as Hgout by lia.
    pose proof (Z.mul_div_le (readable (serializer.in_ s)) (serializer.nin s)
                             ltac:(lia)) as Hin.
    pose proof (Z.mul_div_le (writable (serializer.out s)) (serializer.nout s)
                             ltac:(lia)) as Hout.
    destruct fuel as [| fuel]; [lia |].
    cbn [serializer.run_loop].
    rewrite !to_ulong_small by lia.
    destruct (Z.leb_spec (serializer.nin s) (readable (serializer.in_ s)));
      [| nia].
    destruct (Z.leb_spec (serializer.nout s) (writable (serializer.out s)));
      [| nia].
    cbn [andb].
    destruct (copy_group_spec s Hs) as (staged & -> & Hlen1 & Hall1 & Hcat1);
      [lia | lia |].
    cbn [bind].
    set (s1 := serializer.mk _ _ _ _).
    assert (readable (serializer.in_ s1)
            = readable (serializer.in_ s) - serializer.nin s) as Hr1.
    { unfold s1, read, readable. cbn [serializer.in_ items].
      rewrite length_skipn. unfold readable in *. lia. }
    assert (writable (serializer.out s1)
            = writable (serializer.out s) - serializer.nout s) as Hw1.
    { unfold s1, writable. cbn [serializer.out room]. unfold writable in *. lia. }
    destruct (IH fuel s1) as (new & Hrun & Hlen & Hnew & Hcat).
    + unfold grouped, s1. cbn [serializer.nin serializer.nout serializer.in_].
      repeat split; try lia. unfold read. cbn [items].
      rewrite <- (firstn_skipn (Z.to_nat (serializer.nin s))
                               (items (serializer.in_ s))) in Hall.
      apply Forall_app in Hall. exact (proj2 Hall).
    + unfold groups. rewrite Hr1, Hw1. unfold s1.
      cbn [serializer.nin serializer.nout].
      replace (readable (serializer.in_ s) - serializer.nin s)
        with (readable (serializer.in_ s) + (-1) * serializer.nin s) by lia.
      replace (writable (serializer.out s) - serializer.nout s)
        with (writable (serializer.out s) + (-1) * serializer.nout s) by lia.
      rewrite !Z.div_add by lia. lia.
    + lia.
    + rewrite Hrun. subst s1.
      cbn [serializer.nin serializer.nout serializer.in_ serializer.out
           items room] in *.
      exists (staged ++ new).
      rewrite length_app, concat_app, Hcat1, Hcat.
      repeat split.
      * f_equal. f_equal.
        -- unfold read. cbn [items room]. rewrite skipn_skipn. do 2 f_equal. nia.
        -- rewrite app_assoc. f_equal. nia.
      * nia.
      * apply Forall_app. split; assumption.
      * unfold read. cbn [items].
        replace (Z.to_nat (Z.of_nat (S g) * serializer.nin s))
          with (Z.to_nat (serializer.nin s)
                + Z.to_nat (Z.of_nat g * serializer.nin s))%nat by nia.
        rewrite firstn_add, concat_app. reflexivity.
Qed.
End SerializerRun.

(** The step of a serializer re-chunks and does nothing else: it copies the
    whole groups that fit, [groups s] of them; the output elements have the
    output width and their bytes, in order, are the bytes of the input
    elements consumed; no part of a group is copied. *)
Theorem serializer_run_rechunks
        (sizeof_Tin sizeof_Tout : Z) (fuel : nat) (s : serializer.t)
        (Tin_size : 1 <= sizeof_Tin < 2 ^ 31)
        (Tout_size : 1 <= sizeof_Tout < 2 ^ 31)
        (Hs : grouped sizeof_Tin sizeof_Tout s)
        (Hfuel : groups s <= Z.of_nat fuel) :
  exists s' new,
    serializer.run fuel sizeof_Tout s = Done s'
    /\ items (serializer.in_ s')
       = skipn (Z.to_nat (groups s * serializer.nin s))
               (items (serializer.in_ s))
    /\ items (serializer.out s') = items (serializer.out s) ++ new
    /\ Z.of_nat (length new) = groups s * serializer.nout s
    /\ Forall (fun e => Z.of_nat (length e) = sizeof_Tout) new
    /\ concat new
       = concat (firstn (Z.to_nat (groups s * serializer.nin s))
                        (items (serializer.in_ s)))
    /\ groups s' = 0.
Proof.
  assert (0 <= groups s) as Hg0.
  { destruct Hs as (Hnin & Hnout & _). unfold groups.
    apply Z.min_glb; apply Z.div_pos; unfold readable, writable; lia. }
  destruct (run_loop_groups sizeof_Tin sizeof_Tout Tin_size Tout_size
                            (Z.to_nat (groups s)) fuel s Hs)
    as (new & Hrun & Hlen & Hnew & Hcat); [lia | lia |].
  rewrite Z2Nat.id in Hrun, Hlen, Hcat by lia.
  unfold serializer.run. rewrite Hrun.
  eexists. exists new. split; [reflexivity |].
  cbn [serializer.in_ serializer.out serializer.nin serializer.nout read items].
  repeat split; try assumption.
  destruct Hs as (Hnin & Hnout & _).
  pose proof (Z.mul_div_le (readable (serializer.in_ s)) (serializer.nin s)
                           ltac:(lia)) as Hin.
  pose proof (Z.mul_div_le (writable (serializer.out s)) (serializer.nout s)
                           ltac:(lia)) as Hout.
  unfold groups at 1.
  cbn [serializer.in_ serializer.out serializer.nin serializer.nout].
  unfold readable at 1, writable at 1, read. cbn [items room].
  rewrite length_skipn.
  set (g := groups s) in *.
  assert (g <= readable (serializer.in_ s) / serializer.nin s
          /\ g <= writable (serializer.out s) / serializer.nout s
          /\ (g = readable (serializer.in_ s) / serializer.nin s
              \/ g = writable (serializer.out s) / serializer.nout s))
    as (Hgi & Hgo & Hgeq) by (unfold g, groups; lia).
  replace (Z.of_nat (length (items (serializer.in_ s))
                     - Z.to_nat (g * serializer.nin s)))
    with (readable (serializer.in_ s) + (- g) * serializer.nin s)
    by (unfold readable in *; nia).
  replace (Z.of_nat (room (serializer.out s) - Z.to_nat (g * serializer.nout s)))
    with (writable (serializer.out s) + (- g) * serializer.nout s)
    by (unfold writable in *; nia).
  rewrite !Z.div_add by lia. lia.
Qed.

Lemma serializer_run_rechunks_witness :
  exists s' new,
    serializer.run 2 8
      (serializer.mk 4 1
         (mkpipe [[x01; x02]; [x03; x04]; [x05; x06]; [x07; x08];
                  [x09; x0a]; [x0b; x0c]; [x0d; x0e]; [x0f; x10];
                  [x11; x12]] 0)
         (mkpipe [] 5))
    = Done s'
    /\ items (serializer.in_ s') = [[x11; x12]]
    /\ items (serializer.out s') = [] ++ new
    /\ Z.of_nat (length new) = 2
    /\ concat new
       = [x01; x02; x03; x04; x05; x06; x07; x08;
          x09; x0a; x0b; x0c; x0d; x0e; x0f; x10].
Proof.
  destruct (serializer_run_rechunks
              2 8 2
              (serializer.mk 4 1
                 (mkpipe [[x01; x02]; [x03; x04]; [x05; x06]; [x07; x08];
                          [x09; x0a]; [x0b; x0c]; [x0d; x0e]; [x0f; x10];
                          [x11; x12]] 0)
                 (mkpipe [] 5)))
    as (s' & new & Hrun & Hin & Hout & Hlen & _ & Hcat & _).
  - lia.
  - lia.
  - unfold grouped. cbn. repeat split; try lia. repeat constructor.
  - vm_compute. discriminate.
  - exists s', new. repeat split; assumption.
Defined.

Lemma app_inj_length {A : Type} (a b c d : list A) :
  length a = length b -> a ++ c = b ++ d -> a = b /\ c = d.
Proof.
  revert b. induction a as [| x a IH]; intros [| y b] Hlen Heq;
    try discriminate.
  - split; [reflexivity | exact Heq].
  - cbn in Hlen, Heq. injection Hlen as Hlen. injection Heq as -> Heq.
    destruct (IH b Hlen Heq) as [-> ->]. split; reflexivity.
Qed.

(** Elements of one positive width are determined by their bytes. *)
Lemma concat_uniform_inj (w : Z) (l1 : list element) :
  1 <= w ->
  Forall (fun e => Z.of_nat (length e) = w) l1 ->
  forall l2,
    Forall (fun e => Z.of_nat (length e) = w) l2 ->
    concat l1 = concat l2 -> l1 = l2.
Proof.
  intros Hw H1. induction H1 as [| e1 l1 He1 Hl1 IH]; intros l2 H2 Hcat.
  - destruct H2 as [| e2 l2 He2 Hl2]; [reflexivity |].
    cbn in Hcat. apply (f_equal (@length byte)) in Hcat.
    rewrite length_app in Hcat. cbn in Hcat. lia.
  - destruct H2 as [| e2 l2 He2 Hl2].
    + cbn in Hcat. apply (f_equal (@length byte)) in Hcat.
      rewrite length_app in Hcat. cbn in Hcat. lia.
    + cbn [concat] in Hcat.
      apply app_inj_length in Hcat as [-> Hcat]; [| lia].
      f_equal. now apply IH.
Qed.

(** A serializer that construction has accepted passes elements through:
    the sizes are equal, both group counts are 1, and an invocation moves
    the first min(readable, writable) elements, unchanged and in order. *)
Theorem serializer_constructed_passes_through
        (sizeof_Tin sizeof_Tout : Z) (_in _out : pipebuf element)
        (s : serializer.t) (fuel : nat)
        (Tin_size : 0 < sizeof_Tin < 2 ^ 31)
        (Tout_size : 0 < sizeof_Tout < 2 ^ 31)
        (Hwidth : Forall (fun e => Z.of_nat (length e) = sizeof_Tin) (items _in))
        (Hs : serializer.construct sizeof_Tin sizeof_Tout _in _out = Done s)
        (Hfuel : Z.min (readable _in) (writable _out) <= Z.of_nat fuel) :
  let n := Z.to_nat (Z.min (readable _in) (writable _out)) in
  sizeof_Tin = sizeof_Tout
  /\ serializer.nin s = 1
  /\ serializer.nout s = 1
  /\ exists s',
      serializer.run fuel sizeof_Tout s = Done s'
      /\ items (serializer.in_ s') = skipn n (items _in)
      /\ items (serializer.out s') = items _out ++ firstn n (items _in).
Proof.
  intros n.
  rewrite construct_done_iff in Hs by assumption.
  destruct (Z.eqb_spec sizeof_Tin sizeof_Tout) as [Heq | Hne]; [| discriminate].
  injection Hs as <-. repeat split; try assumption.
  assert (grouped sizeof_Tin sizeof_Tout (serializer.mk 1 1 _in _out)) as Hg.
  { unfold grouped. cbn [serializer.nin serializer.nout serializer.in_].
    repeat split; try lia. assumption. }
  assert (groups (serializer.mk 1 1 _in _out)
          = Z.min (readable _in) (writable _out)) as Hgroups.
  { unfold groups. cbn [serializer.nin serializer.nout serializer.in_
                        serializer.out]. now rewrite !Z.div_1_r. }
  assert (0 <= Z.min (readable _in) (writable _out)) as Hn0
      by (unfold readable, writable; lia).
  destruct (run_loop_groups sizeof_Tin sizeof_Tout ltac:(lia) ltac:(lia)
                            n fuel (serializer.mk 1 1 _in _out) Hg)
    as (new & Hrun & Hlen & Hnew & Hcat); [unfold n; lia | unfold n; lia |].
  cbn [serializer.nin serializer.nout serializer.in_ serializer.out]
    in Hrun, Hlen, Hcat.
  rewrite Z.mul_1_r, Nat2Z.id in Hrun, Hcat.
  apply concat_uniform_inj with (w := sizeof_Tout) in Hcat; [| lia | exact Hnew |].
  - subst new. eexists. split; [exact Hrun |].
    cbn [serializer.in_ serializer.out read items]. rewrite Nat2Z.id.
    split; reflexivity.
  - rewrite <- Heq. rewrite <- (firstn_skipn n (items _in)) in Hwidth.
    apply Forall_app in Hwidth. exact (proj1 Hwidth).
Qed.

Lemma serializer_constructed_passes_through_witness :
  exists s s',
    serializer.construct 2 2 (mkpipe [[x01; x02]; [x03; x04]; [x05; x06]] 0)
                         (mkpipe [] 2) = Done s
    /\ serializer.run 2 2 s = Done s'
    /\ items (serializer.in_ s') = [[x05; x06]]
    /\ items (serializer.out s') = [[x01; x02]; [x03; x04]].
Proof.
  eexists.
  destruct (serializer_constructed_passes_through
              2 2 (mkpipe [[x01; x02]; [x03; x04]; [x05; x06]] 0) (mkpipe [] 2)
              (serializer.mk 1 1 (mkpipe [[x01; x02]; [x03; x04]; [x05; x06]] 0)
                             (mkpipe [] 2))
              2 ltac:(lia) ltac:(lia) ltac:(repeat constructor) eq_refl
              ltac:(vm_compute; discriminate))
    as (_ & _ & _ & s' & Hrun & Hin & Hout).
  exists s'. split; [reflexivity |]. repeat split; assumption.
Defined.

(** ** buffer_reader and buffer_writer *)

(** The element count of an invocation of a buffer adapter whose cursor is
    within the declared count. *)
Lemma buffer_count (avail count pos : Z) :
  0 <= avail -> 0 <= pos <= count -> count < 2 ^ 31 ->
  to_int (min avail (to_ulong (to_int (count - pos))))
  = Z.min avail (count - pos).
Proof.
  intros Havail Hpos Hcount.
  rewrite (to_int_small (count - pos)) by lia.
  rewrite (to_ulong_small (count - pos)) by lia.
  rewrite min_spec. apply to_int_small. lia.
Qed.

Lemma buffer_reader_run_done {T : Type} (s : buffer_reader.t (T:=T)) :
  0 <= buffer_reader.pos s <= buffer_reader.count s ->
  buffer_reader.count s <= Z.of_nat (length (buffer_reader.data s)) ->
  buffer_reader.count s < 2 ^ 31 ->
  let n := Z.min (writable (buffer_reader.out s))
                 (buffer_reader.count s - buffer_reader.pos s) in
  buffer_reader.run s
  = Done (buffer_reader.mk (buffer_reader.data s) (buffer_reader.count s)
            (mkpipe (items (buffer_reader.out s)
                     ++ firstn (Z.to_nat n)
                               (skipn (Z.to_nat (buffer_reader.pos s))
                                      (buffer_reader.data s)))
                    (room (buffer_reader.out s) - Z.to_nat n))
            (buffer_reader.pos s + n)).
Proof.
  intros Hpos Hlen Hcount n. unfold buffer_reader.run.
  assert (0 <= writable (buffer_reader.out s)) by (unfold writable; lia).
  rewrite buffer_count by assumption. fold n.
  destruct (Z.ltb_spec n 0); [lia |].
  destruct (Z.ltb_spec (Z.of_nat (length (buffer_reader.data s)))
                       (buffer_reader.pos s + n)); [lia |].
  rewrite (to_int_small (buffer_reader.pos s + n)) by lia.
  unfold written. rewrite firstn_firstn, Nat.min_id. reflexivity.
Qed.

(** An invocation of the buffer source delivers the next
    min(room, count - pos) elements of the region, in order, and moves the
    cursor past them: what has been delivered so far is always the start of
    the region up to the cursor, and the cursor never passes the count. *)
Theorem buffer_reader_delivers_next_elements {T : Type}
        (s : buffer_reader.t (T:=T))
        (Hpos : 0 <= buffer_reader.pos s <= buffer_reader.count s)
        (Hlen : buffer_reader.count s <= Z.of_nat (length (buffer_reader.data s)))
        (Hcount : buffer_reader.count s < 2 ^ 31) :
  let n := Z.min (writable (buffer_reader.out s))
                 (buffer_reader.count s - buffer_reader.pos s) in
  exists s' new,
    buffer_reader.run s = Done s'
    /\ items (buffer_reader.out s') = items (buffer_reader.out s) ++ new
    /\ Z.of_nat (length new) = n
    /\ firstn (Z.to_nat (buffer_reader.pos s')) (buffer_reader.data s')
       = firstn (Z.to_nat (buffer_reader.pos s)) (buffer_reader.data s) ++ new
    /\ buffer_reader.pos s' = buffer_reader.pos s + n
    /\ buffer_reader.pos s' <= buffer_reader.count s'
    /\ buffer_reader.data s' = buffer_reader.data s
    /\ buffer_reader.count s' = buffer_reader.count s.
Proof.
  intros n. rewrite buffer_reader_run_done by assumption. fold n.
  assert (0 <= n) by (unfold n, writable; lia).
  eexists. eexists. split; [reflexivity |].
  cbn [buffer_reader.out buffer_reader.pos buffer_reader.data
       buffer_reader.count items].
  repeat split.
  - rewrite length_firstn, length_skipn. lia.
  - replace (Z.to_nat (buffer_reader.pos s + n))
      with (Z.to_nat (buffer_reader.pos s) + Z.to_nat n)%nat by lia.
    apply firstn_add.
  - lia.
Qed.

Lemma buffer_reader_delivers_next_elements_witness :
  exists s' new,
    buffer_reader.run
      (buffer_reader.mk [10; 11; 12; 13; 14; 15; 16; 17; 18; 19] 10
                        (mkpipe [] 10) 4)
    = Done s'
    /\ items (buffer_reader.out s') = [] ++ new
    /\ new = [14; 15; 16; 17; 18; 19]
    /\ buffer_reader.pos s' = 10.
Proof.
  destruct (buffer_reader_delivers_next_elements
              (buffer_reader.mk [10; 11; 12; 13; 14; 15; 16; 17; 18; 19] 10
                                (mkpipe [] 10) 4))
    as (s' & new & Hrun & Hitems & _ & Hpre & Hpos & _).
  - cbn. lia.
  - cbn. lia.
  - cbn. lia.
  - exists s', new. split; [exact Hrun |]. split; [exact Hitems |].
    split; [| exact Hpos].
    vm_compute in Hrun. injection Hrun as <-. cbn in Hitems.
    symmetry. exact Hitems.
Defined.

Lemma buffer_writer_run_done {T : Type} (s : buffer_writer.t (T:=T)) :
  0 <= buffer_writer.pos s <= buffer_writer.count s ->
  buffer_writer.count s <= Z.of_nat (length (buffer_writer.data s)) ->
  buffer_writer.count s < 2 ^ 31 ->
  let n := Z.min (readable (buffer_writer.in_ s))
                 (buffer_writer.count s - buffer_writer.pos s) in
  buffer_writer.run s
  = Done (buffer_writer.mk
            (read n (buffer_writer.in_ s))
            (firstn (Z.to_nat (buffer_writer.pos s)) (buffer_writer.data s)
             ++ firstn (Z.to_nat n) (items (buffer_writer.in_ s))
             ++ skipn (Z.to_nat (buffer_writer.pos s + n)) (buffer_writer.data s))
            (buffer_writer.count s)
            (buffer_writer.pos s + n)).
Proof.
  intros Hpos Hlen Hcount n. unfold buffer_writer.run.
  assert (0 <= readable (buffer_writer.in_ s)) by (unfold readable; lia).
  rewrite buffer_count by assumption. fold n.
  destruct (Z.ltb_spec n 0); [lia |].
  destruct (Z.ltb_spec (Z.of_nat (length (buffer_writer.data s)))
                       (buffer_writer.pos s + n)); [lia |].
  rewrite (to_int_small (buffer_writer.pos s + n)) by lia.
  reflexivity.
Qed.

(** An invocation of the buffer sink stores the first
    min(readable, count - pos) input elements at the cursor and consumes
    exactly those: the region keeps its length, nothing before the cursor
    and nothing from the new cursor on is touched, and nothing is written at
    or past the count. *)
Theorem buffer_writer_stores_within_bounds {T : Type}
        (s : buffer_writer.t (T:=T))
        (Hpos : 0 <= buffer_writer.pos s <= buffer_writer.count s)
        (Hlen : buffer_writer.count s <= Z.of_nat (length (buffer_writer.data s)))
        (Hcount : buffer_writer.count s < 2 ^ 31) :
  let n := Z.min (readable (buffer_writer.in_ s))
                 (buffer_writer.count s - buffer_writer.pos s) in
  exists s',
    buffer_writer.run s = Done s'
    /\ length (buffer_writer.data s') = length (buffer_writer.data s)
    /\ firstn (Z.to_nat (buffer_writer.pos s)) (buffer_writer.data s')
       = firstn (Z.to_nat (buffer_writer.pos s)) (buffer_writer.data s)
    /\ firstn (Z.to_nat n)
              (skipn (Z.to_nat (buffer_writer.pos s)) (buffer_writer.data s'))
       = firstn (Z.to_nat n) (items (buffer_writer.in_ s))
    /\ skipn (Z.to_nat (buffer_writer.pos s')) (buffer_writer.data s')
       = skipn (Z.to_nat (buffer_writer.pos s')) (buffer_writer.data s)
    /\ items (buffer_writer.in_ s')
       = skipn (Z.to_nat n) (items (buffer_writer.in_ s))
    /\ buffer_writer.pos s' = buffer_writer.pos s + n
    /\ buffer_writer.pos s' <= buffer_writer.count s'
    /\ buffer_writer.count s' = buffer_writer.count s.
Proof.
  intros n. rewrite buffer_writer_run_done by assumption. fold n.
  assert (0 <= n <= readable (buffer_writer.in_ s)) as Hn
      by (unfold n, readable; lia).
  set (p := Z.to_nat (buffer_writer.pos s)).
  set (k := Z.to_nat n).
  replace (Z.to_nat (buffer_writer.pos s + n)) with (p + k)%nat
    by (unfold p, k; lia).
  set (data := buffer_writer.data s) in *.
  set (src := items (buffer_writer.in_ s)) in *.
  assert (length (firstn p data) = p) as Hp
      by (rewrite length_firstn; unfold p, data in *; lia).
  assert (length (firstn k src) = k) as Hk
      by (rewrite length_firstn; unfold k, src, n, readable in *; lia).
  eexists. split; [reflexivity |].
  cbn [buffer_writer.data buffer_writer.pos buffer_writer.in_
       buffer_writer.count read items].
  fold data src p k.
  replace (Z.to_nat (buffer_writer.pos s + n)) with (p + k)%nat
    by (unfold p, k; lia).
  repeat split.
  - rewrite !length_app, Hp, Hk, length_skipn. unfold p, k, data in *. lia.
  - rewrite firstn_app, Hp, Nat.sub_diag, firstn_O, app_nil_r.
    rewrite firstn_all2 by lia. reflexivity.
  - rewrite skipn_app, Hp, Nat.sub_diag, skipn_O.
    rewrite (skipn_all2 (firstn p data)) by lia. cbn [app].
    rewrite firstn_app, Hk, Nat.sub_diag, firstn_O, app_nil_r.
    rewrite firstn_all2 by lia. reflexivity.
  - rewrite app_assoc, skipn_app.
    rewrite skipn_all2 by (rewrite length_app; lia).
    rewrite length_app, Hp, Hk, Nat.sub_diag, skipn_O. reflexivity.
  - lia.
Qed.

Lemma buffer_writer_stores_within_bounds_witness :
  exists s',
    buffer_writer.run
      (buffer_writer.mk (mkpipe [7; 8; 9] 0) [0; 1; 2; 3; 4; 5] 4 2)
    = Done s'
    /\ buffer_writer.data s' = [0; 1; 7; 8; 4; 5]
    /\ items (buffer_writer.in_ s') = [9]
    /\ buffer_writer.pos s' = 4.
Proof.
  destruct (buffer_writer_stores_within_bounds
              (buffer_writer.mk (mkpipe [7; 8; 9] 0) [0; 1; 2; 3; 4; 5] 4 2))
    as (s' & Hrun & _).
  - cbn. lia.
  - cbn. lia.
  - cbn. lia.
  - exists s'. split; [exact Hrun |].
    vm_compute in Hrun. injection Hrun as <-. repeat split.
Defined.

(** Round trip: what a buffer source puts on a stream with enough room, a
    buffer sink reading that stream stores in its region: the first [count]
    elements of the destination become the first [count] elements of the
    source, the rest of the destination is kept, and the stream is empty. *)
Theorem buffer_reader_writer_round_trip {T : Type}
        (data dest : list T) (count : Z) (capacity : nat)
        (Hcount : 0 <= count < 2 ^ 31)
        (Hdata : count <= Z.of_nat (length data))
        (Hdest : count <= Z.of_nat (length dest))
        (Hroom : count <= Z.of_nat capacity) :
  exists r w,
    buffer_reader.run (buffer_reader.construct data count (mkpipe [] capacity))
    = Done r
    /\ buffer_writer.run (buffer_writer.construct (buffer_reader.out r) dest count)
       = Done w
    /\ buffer_writer.data w
       = firstn (Z.to_nat count) data ++ skipn (Z.to_nat count) dest
    /\ items (buffer_writer.in_ w) = []
    /\ buffer_reader.pos r = count
    /\ buffer_writer.pos w = count.
Proof.
  rewrite buffer_reader_run_done
    by (cbn [buffer_reader.construct buffer_reader.pos buffer_reader.count
             buffer_reader.data]; lia).
  cbn [buffer_reader.construct buffer_reader.pos buffer_reader.count
       buffer_reader.data buffer_reader.out items room].
  unfold writable at 1 2. cbn [room]. rewrite Z.sub_0_r, Z.min_r by lia.
  cbn [Z.to_nat skipn app].
  eexists. eexists. split; [reflexivity |].
  cbn [buffer_reader.out buffer_reader.pos].
  rewrite buffer_writer_run_done
    by (cbn [buffer_writer.construct buffer_writer.pos buffer_writer.count
             buffer_writer.data]; lia).
  cbn [buffer_writer.construct buffer_writer.pos buffer_writer.count
       buffer_writer.data buffer_writer.in_ items].
  assert (readable (mkpipe (firstn (Z.to_nat count) data)
                           (capacity - Z.to_nat count)) = count) as Hr.
  { unfold readable. cbn [items]. rewrite length_firstn. lia. }
  rewrite Hr, Z.sub_0_r, Z.min_id.
  split; [reflexivity |].
  cbn [buffer_writer.data buffer_writer.in_ buffer_writer.pos read items
       Z.to_nat firstn app Z.add].
  repeat split.
  - rewrite firstn_firstn, Nat.min_id. reflexivity.
  - apply skipn_all2. rewrite length_firstn. lia.
  - unfold writable. cbn [room]. lia.
Qed.

Lemma buffer_reader_writer_round_trip_witness :
  exists r w,
    buffer_reader.run (buffer_reader.construct [1; 2; 3; 4] 3 (mkpipe [] 5))
    = Done r
    /\ buffer_writer.run
         (buffer_writer.construct (buffer_reader.out r) [0; 0; 0; 0; 0] 3)
       = Done w
    /\ buffer_writer.data w
       = firstn (Z.to_nat 3) [1; 2; 3; 4] ++ skipn (Z.to_nat 3) [0; 0; 0; 0; 0]
    /\ items (buffer_writer.in_ w) = []
    /\ buffer_reader.pos r = 3
    /\ buffer_writer.pos w = 3.
Proof.
  apply (buffer_reader_writer_round_trip [1; 2; 3; 4] [0; 0; 0; 0; 0] 3 5);
    cbn; lia.
Defined.

(** ** file_printer: invocations compose *)

Lemma selected_app {T : Type} (d : Z) (xs ys : list T) :
  forall k,
    selected d k (xs ++ ys)
    = selected d k xs ++ selected d (k + Z.of_nat (length xs)) ys.
Proof.
  induction xs as [| x xs IH]; intros k.
  - cbn. now rewrite Z.add_0_r.
  - cbn [app selected length]. rewrite IH.
    replace (k + 1 + Z.of_nat (length xs)) with (k + Z.of_nat (S (length xs)))
      by lia.
    destruct ((k + 1) mod d =? 0); reflexivity.
Qed.

Lemma selected_mod {T : Type} (d : Z) (ys : list T) :
  forall k k', k mod d = k' mod d -> selected d k ys = selected d k' ys.
Proof.
  induction ys as [| y ys IH]; intros k k' Hk; [reflexivity |].
  cbn [selected].
  assert ((k + 1) mod d = (k' + 1) mod d) as Hnext
      by (rewrite <- (Zplus_mod_idemp_l k), <- (Zplus_mod_idemp_l k'), Hk;
          reflexivity).
  rewrite Hnext, (IH (k + 1) (k' + 1) Hnext). reflexivity.
Qed.

(** The step of a value printer on a descriptor that takes every write. *)
Lemma file_printer_run_done {T : Type} `{printable T} (lib : libc)
      (sc : T) (dec : Z) (inp : pipebuf T) (fmt : string)
      (ws : list write_call) (ph : Z) :
  1 <= dec < 2 ^ 31 -> 0 <= ph < dec ->
  readable inp < 2 ^ 31 ->
  Forall (formats lib fmt sc) (items inp) ->
  file_printer.run lib (file_printer.mk sc dec inp fmt (mksink [] ws) ph)
  = Done (file_printer.mk sc dec (mkpipe [] (room inp)) fmt
            (mksink [] (ws ++ map (formatted_line lib fmt sc)
                                  (selected dec ph (items inp))))
            ((ph + readable inp) mod dec)).
Proof.
  intros Hdec Hph Hn Hfmt. unfold file_printer.run. cbn [file_printer.in_].
  assert (0 <= readable inp) as Hn0 by (unfold readable; lia).
  rewrite (to_int_small (readable inp)), (to_ulong_small (readable inp)) by lia.
  replace (file_printer.mk sc dec inp fmt (mksink [] ws) ph)
    with (file_printer.mk sc dec inp fmt (mksink [] ws) (ph mod dec))
    by (now rewrite Z.mod_small by lia).
  rewrite (for_loop_prints lib sc dec inp fmt Hdec (items inp));
    [| lia | lia | reflexivity | unfold readable; lia | assumption].
  cbn [bind file_printer.in_ file_printer.fdout file_printer.phase
       file_printer.decimation file_printer.scale file_printer.format].
  unfold read. rewrite skipn_all2 by (unfold readable; lia).
  reflexivity.
Qed.

(** Decimation does not depend on how the stream is cut into invocations:
    an invocation on [xs] followed by one on [ys] writes the lines, and ends
    with the counter, of one invocation on [xs ++ ys]. *)
Theorem file_printer_invocations_compose {T : Type} `{printable T}
        (lib : libc) (sc : T) (dec : Z) (fmt : string)
        (ws : list write_call) (ph : Z) (xs ys : list T) (r1 r2 r12 : nat)
        (Hdec : 1 <= dec < 2 ^ 31)
        (Hph : 0 <= ph < dec)
        (Hlen : Z.of_nat (length xs) + Z.of_nat (length ys) < 2 ^ 31)
        (Hxs : Forall (formats lib fmt sc) xs)
        (Hys : Forall (formats lib fmt sc) ys) :
  exists s1 s2 s12,
    file_printer.run lib
      (file_printer.mk sc dec (mkpipe xs r1) fmt (mksink [] ws) ph) = Done s1
    /\ file_printer.run lib
         (file_printer.mk (file_printer.scale s1) (file_printer.decimation s1)
                          (mkpipe ys r2) (file_printer.format s1)
                          (file_printer.fdout s1) (file_printer.phase s1))
       = Done s2
    /\ file_printer.run lib
         (file_printer.mk sc dec (mkpipe (xs ++ ys) r12) fmt (mksink [] ws) ph)
       = Done s12
    /\ writes (file_printer.fdout s2) = writes (file_printer.fdout s12)
    /\ file_printer.phase s2 = file_printer.phase s12.
Proof.
  pose proof (Z.mod_pos_bound (ph + Z.of_nat (length xs)) dec ltac:(lia)) as Hph1.
  eexists. eexists. eexists.
  split.
  { apply file_printer_run_done; try assumption. unfold readable. cbn [items]. lia. }
  cbn [file_printer.scale file_printer.decimation file_printer.format
       file_printer.fdout file_printer.phase].
  split.
  { apply file_printer_run_done; try assumption.
    unfold readable. cbn [items]. lia. }
  split.
  { apply file_printer_run_done; try assumption.
    - unfold readable. cbn [items]. rewrite length_app. lia.
    - apply Forall_app. split; assumption. }
  cbn [file_printer.fdout file_printer.phase writes items].
  unfold readable. cbn [items]. split.
  - rewrite <- app_assoc, <- map_app. do 2 f_equal.
    rewrite selected_app. f_equal.
    apply selected_mod. now rewrite Z.mod_mod by lia.
  - rewrite Zplus_mod_idemp_l, length_app. f_equal. lia.
Qed.

Lemma file_printer_invocations_compose_witness :
  exists s1 s2 s12,
    file_printer.run c99
      (file_printer.mk 1 3 (mkpipe [10; 20; 30; 40] 0) (append "%d" newline)
                       (mksink [] []) 0) = Done s1
    /\ file_printer.run c99
         (file_printer.mk (file_printer.scale s1) (file_printer.decimation s1)
                          (mkpipe [50; 60; 70] 0) (file_printer.format s1)
                          (file_printer.fdout s1) (file_printer.phase s1))
       = Done s2
    /\ file_printer.run c99
         (file_printer.mk 1 3 (mkpipe ([10; 20; 30; 40] ++ [50; 60; 70]) 0)
                          (append "%d" newline) (mksink [] []) 0)
       = Done s12
    /\ writes (file_printer.fdout s2) = writes (file_printer.fdout s12)
    /\ file_printer.phase s2 = file_printer.phase s12.
Proof.
  apply (file_printer_invocations_compose
           c99 1 3 (append "%d" newline) [] 0 [10; 20; 30; 40] [50; 60; 70] 0 0 0).
  - lia.
  - lia.
  - cbn [length]. lia.
  - repeat constructor; vm_compute; discriminate.
  - repeat constructor; vm_compute; discriminate.
Defined.

(** ** rate_estimator: the threshold invariant *)

(** Whenever zero is below the threshold, an invocation with room leaves the
    denominator sum below the threshold, and emits at most one value. *)
Theorem rate_estimator_restores_threshold_invariant
        {T F : Type} `{accumulator T F} (s : rate_estimator.t (T:=T) (F:=F))
        (Hroom : 1 <= writable (rate_estimator.rate s))
        (Hcount : Z.min (readable (rate_estimator.num s))
                        (readable (rate_estimator.den s)) < 2 ^ 31)
        (Hzero : acc_ge acc_zero (rate_estimator.sample_size s) = false) :
  exists s',
    rate_estimator.run s = Done s'
    /\ acc_ge (rate_estimator.acc_den s') (rate_estimator.sample_size s') = false
    /\ (length (items (rate_estimator.rate s'))
        <= S (length (items (rate_estimator.rate s))))%nat
    /\ readable (rate_estimator.num s') - readable (rate_estimator.den s')
       = readable (rate_estimator.num s) - readable (rate_estimator.den s).
Proof.
  rewrite rate_estimator_run_done by assumption.
  set (count := Z.min _ _) in *.
  assert (0 <= count <= readable (rate_estimator.num s)
          /\ count <= readable (rate_estimator.den s)) as Hc
      by (unfold count, readable; lia).
  assert (forall p : pipebuf Z, count <= readable p ->
                                readable (read count p) = readable p - count)
    as Hread.
  { intros p Hp. unfold read, readable in *. cbn [items].
    rewrite length_skipn. lia. }
  eexists. split; [reflexivity |].
  destruct (acc_ge (summed (rate_estimator.acc_den s)
                           (firstn (Z.to_nat count)
                                   (items (rate_estimator.den s))))
                   (rate_estimator.sample_size s)) eqn:Hge;
    cbn [rate_estimator.acc_den rate_estimator.sample_size rate_estimator.rate
         rate_estimator.num rate_estimator.den];
    rewrite !Hread by lia; repeat split; try assumption; try lia.
  unfold write, written. cbn [items]. rewrite length_app.
  change (Z.to_nat 1) with 1%nat. cbn [firstn length]. lia.
Qed.

Lemma rate_estimator_restores_threshold_invariant_witness :
  exists s',
    rate_estimator.run
      (rate_estimator.mk 5 (mkpipe [1; 1; 1] 0) (mkpipe [2; 2; 2; 2] 0)
                         (mkpipe [] 3) 0 0)
    = Done s'
    /\ acc_ge (rate_estimator.acc_den s') (rate_estimator.sample_size s') = false
    /\ items (rate_estimator.rate s') = [FDiv 3 6].
Proof.
  destruct (rate_estimator_restores_threshold_invariant
              (rate_estimator.mk 5 (mkpipe [1; 1; 1] 0) (mkpipe [2; 2; 2; 2] 0)
                                 (mkpipe [] 3) 0 0))
    as (s' & Hrun & Hinv & _).
  - vm_compute. discriminate.
  - vm_compute. reflexivity.
  - reflexivity.
  - exists s'. split; [exact Hrun |]. split; [exact Hinv |].
    vm_compute in Hrun. injection Hrun as <-. reflexivity.
Defined.

(** ** itemcounter *)

(** With input to count and room for the count, an invocation emits exactly
    one value, the number of readable elements (never zero), and consumes
    them all; invoked again at once it does nothing. *)
Theorem itemcounter_emits_count_once {Tin Tout : Type} (of_count : Z -> Tout)
        (s : itemcounter.t (Tin:=Tin) (Tout:=Tout))
        (Hroom : 1 <= writable (itemcounter.out s))
        (Hinput : 1 <= readable (itemcounter.in_ s)) :
  exists s',
    itemcounter.run of_count s = Done s'
    /\ items (itemcounter.out s')
       = items (itemcounter.out s) ++ [of_count (readable (itemcounter.in_ s))]
    /\ items (itemcounter.in_ s') = []
    /\ writable (itemcounter.out s') = writable (itemcounter.out s) - 1
    /\ itemcounter.run of_count s' = Done s'.
Proof.
  unfold itemcounter.run at 1.
  destruct (Z.ltb_spec (writable (itemcounter.out s)) 1); [lia |].
  destruct (Z.eqb_spec (readable (itemcounter.in_ s)) 0); [lia |].
  eexists. split; [reflexivity |].
  cbn [itemcounter.in_ itemcounter.out].
  assert (items (read (readable (itemcounter.in_ s)) (itemcounter.in_ s)) = [])
    as Hempty.
  { unfold read. cbn [items]. apply skipn_all2. unfold readable. lia. }
  repeat split.
  - exact Hempty.
  - unfold write, written, writable in *. cbn [room]. lia.
  - apply itemcounter_idle. left. cbn [itemcounter.in_].
    unfold readable at 1. now rewrite Hempty.
Qed.

Lemma itemcounter_emits_count_once_witness :
  exists s',
    itemcounter.run (fun count => count)
      (itemcounter.mk (mkpipe [7; 7; 7] 0) (mkpipe [] 2))
    = Done s'
    /\ items (itemcounter.out s') = [] ++ [3]
    /\ items (itemcounter.in_ s') = []
    /\ writable (itemcounter.out s') = 2 - 1
    /\ itemcounter.run (fun count => count) s' = Done s'.
Proof.
  apply (itemcounter_emits_count_once
           (fun count => count)
           (itemcounter.mk (mkpipe [7; 7; 7] 0) (mkpipe [] 2)));
    vm_compute; discriminate.
Defined.

(** ** file_carrayprinter *)

Section CArrayPrinter.
Context {T : Type} `{printable T} `{printable_count : printable Z}.

Lemma fprintf_rendered {A : Type} `{printable A} (f : FILE) (format : string)
      (args : list A) :
  fprintf f format args = fputs (rendered format args) f.
Proof.
  unfold fprintf, rendered, fputs.
  destruct (vprintf format args); [reflexivity |].
  destruct f. cbn. now rewrite app_nil_r.
Qed.

(** The loop over the elements not yet printed. *)
Lemma for_loop_prints_pairs (region : list (complex T)) (scale : T)
      (format : string) :
  forall (todo : list (complex T)) (fuel : nat) (pin : Z) (f : FILE),
    0 <= pin ->
    skipn (Z.to_nat pin) region = todo ->
    (length todo <= fuel)%nat ->
    file_carrayprinter.for_loop fuel region scale format pin
                                (Z.of_nat (length region)) f
    = Done (fputs (concat (map (fun c => rendered format
                                           [times (re c) scale;
                                            times (im c) scale])
                               todo)) f).
Proof.
  induction todo as [| c todo IH]; intros fuel pin f Hpin Hskip Hfuel.
  - assert (Z.of_nat (length region) <= pin) as Hend.
    { apply (f_equal (@length (complex T))) in Hskip.
      rewrite length_skipn in Hskip. cbn in Hskip. lia. }
    assert (fputs [] f = f) as Hsame
        by (destruct f; unfold fputs; cbn; now rewrite app_nil_r).
    cbn [map concat]. rewrite Hsame.
    destruct fuel; cbn [file_carrayprinter.for_loop];
      destruct (Z.ltb_spec pin (Z.of_nat (length region))); (lia || reflexivity).
  - destruct fuel as [| fuel]; [cbn [length] in Hfuel; lia |].
    apply skipn_cons_inv in Hskip as (Hc & Hskip).
    assert (pin < Z.of_nat (length region)) as Hlt.
    { assert (nth_error region (Z.to_nat pin) <> None) as Hsome
          by (rewrite Hc; discriminate).
      apply nth_error_Some in Hsome. lia. }
    cbn [file_carrayprinter.for_loop].
    destruct (Z.ltb_spec pin (Z.of_nat (length region))); [| lia].
    unfold deref. destruct (Z.ltb_spec pin 0); [lia |].
    rewrite Hc. cbn [bind].
    rewrite IH; [| lia | | cbn [length] in Hfuel; lia].
    + rewrite fprintf_rendered. cbn [map concat]. unfold fputs.
      cbn [buffered flushed]. now rewrite <- app_assoc.
    + replace (Z.to_nat (pin + 1)) with (S (Z.to_nat pin)) by lia.
      exact Hskip.
Qed.
End CArrayPrinter.

(** The array printer always consumes all readable elements. With a stream
    and at least one element it flushes, after what was pending, the head
    rendered with the element count, each element's two components times the
    scale rendered with the format, in order, and the tail; without a stream
    nothing is output and the elements are consumed all the same. *)
Theorem file_carrayprinter_prints_batch_and_consumes
        {T : Type} `{printable T} `{printable_count : printable Z}
        (s : file_carrayprinter.t (T:=T))
        (Hn : readable (file_carrayprinter.in_ s) < 2 ^ 31) :
  let n := readable (file_carrayprinter.in_ s) in
  exists s',
    file_carrayprinter.run s = Done s'
    /\ items (file_carrayprinter.in_ s') = []
    /\ file_carrayprinter.fout s'
       = match file_carrayprinter.fout s with
         | None => None
         | Some f =>
             if n =? 0 then Some f
             else Some (mkFILE []
                          (flushed f ++ buffered f
                           ++ rendered (file_carrayprinter.head s) [n]
                           ++ concat (map (fun c =>
                                             rendered (file_carrayprinter.format s)
                                               [times (re c) (file_carrayprinter.scale s);
                                                times (im c) (file_carrayprinter.scale s)])
                                          (items (file_carrayprinter.in_ s)))
                           ++ file_carrayprinter.tail s))
         end.
Proof.
  intros n. unfold file_carrayprinter.run. fold n.
  assert (0 <= n) as Hn0 by (unfold n, readable; lia).
  rewrite (to_int_small n), (to_ulong_small n) by lia.
  assert (items (read n (file_carrayprinter.in_ s)) = []) as Hempty.
  { unfold read. cbn [items]. apply skipn_all2. unfold n, readable. lia. }
  destruct (file_carrayprinter.fout s) as [f |].
  - destruct (Z.eqb_spec n 0) as [Hz | Hnz]; cbn [negb bind].
    + eexists. split; [reflexivity |]. split; [exact Hempty | reflexivity].
    + unfold rd.
      rewrite (for_loop_prints_pairs (items (file_carrayprinter.in_ s)) _ _
                                     (items (file_carrayprinter.in_ s)))
        by (reflexivity || lia || (unfold n, readable; lia)).
      cbn [bind]. eexists. split; [reflexivity |].
      split; [exact Hempty |].
      cbn [file_carrayprinter.fout]. rewrite fprintf_rendered.
      unfold fflush, fputs. cbn [buffered flushed].
      rewrite <- !app_assoc. reflexivity.
  - cbn [bind]. eexists. split; [reflexivity |].
    split; [exact Hempty | reflexivity].
Qed.

Lemma file_carrayprinter_prints_batch_and_consumes_witness :
  exists s',
    file_carrayprinter.run
      (file_carrayprinter.construct
         (append "%d:" EmptyString) (append "(%d,%d)" EmptyString)
         (list_byte_of_string newline)
         (mkpipe [mkcomplex 1 2; mkcomplex 3 4] 0)
         (Some (mkFILE [] [])))
    = Done s'
    /\ items (file_carrayprinter.in_ s') = []
    /\ file_carrayprinter.fout s'
       = Some (mkFILE [] (list_byte_of_string
                            (append "2:(1,2)(3,4)" newline))).
Proof.
  destruct (file_carrayprinter_prints_batch_and_consumes
              (file_carrayprinter.construct
                 (append "%d:" EmptyString) (append "(%d,%d)" EmptyString)
                 (list_byte_of_string newline)
                 (mkpipe [mkcomplex 1 2; mkcomplex 3 4] 0)
                 (Some (mkFILE [] []))))
    as (s' & Hrun & Hin & Hout).
  - vm_compute. reflexivity.
  - exists s'. split; [exact Hrun |]. split; [exact Hin |].
    rewrite Hout. vm_compute. reflexivity.
Defined.
